(** * kbuhist preprocessing: sentence filter and chunker

    A shallow embedding of [kbuhist/preprocess/word_cleaner.py] and
    [kbuhist/preprocess/preprocess_chunk.py], with the properties of the
    quality filter ([Word_Cleaner]) and of the chunking strategies.

    Conventions of the embedding.
    - A Python [str] is a [string]; a character is a code point of the
      Latin-1 range (0..255).  On that range [str.split]/[str.strip]
      treat 9..13, 28..32, 133 and 160 as whitespace and the regular
      expression [\d] matches 48..57 only.
    - A Python [int] is a [Z]; [len] returns a [Z].
    - A Python [float] is a binary64 [float] of the kernel; [int]
      operands of a mixed operation are converted first, as Python does
      (exact for the word counts of any sentence that fits in memory).
    - A raised exception is the [Raise] branch of [result].
    - The tokenizer, [numpy] and [joblib] are external: the tokenizer is a
      field of the chunker object, [np.array_split] follows numpy's
      algorithm on the string array made of the list, [Parallel] is an
      in-order map and [np.concatenate] concatenates string arrays; an
      element read from a string array has lost its trailing NUL
      characters. *)

From Stdlib Require Import List String Ascii ZArith NArith Bool Lia.
From Stdlib Require Import Floats Uint63.
Import ListNotations.

Set Warnings "-inexact-float".

Local Open Scope string_scope.
Local Open Scope list_scope.
Local Open Scope Z_scope.

(** ** Python runtime: exceptions, sequences, strings *)

Module Py.

Inductive exn : Type :=
| IndexError
| ValueError.

Inductive result (A : Type) : Type :=
| Ok (a : A)
| Raise (e : exn).

Arguments Ok {A} a.
Arguments Raise {A} e.

Definition bind {A B : Type} (m : result A) (k : A -> result B) : result B :=
  match m with
  | Ok a => k a
  | Raise e => Raise e
  end.

(** [for x in xs: st = body(st, x)], stopping at the first exception. *)
Fixpoint for_each {S X : Type} (body : S -> X -> result S)
         (xs : list X) (st : S) : result S :=
  match xs with
  | [] => Ok st
  | x :: xs' => bind (body st x) (for_each body xs')
  end.

(** [[f(x) for x in xs]], stopping at the first exception. *)
Fixpoint map_each {X Y : Type} (f : X -> result Y) (xs : list X)
  : result (list Y) :=
  match xs with
  | [] => Ok []
  | x :: xs' =>
      bind (f x) (fun y => bind (map_each f xs') (fun ys => Ok (y :: ys)))
  end.

Definition len {A : Type} (l : list A) : Z := Z.of_nat (List.length l).

(** [l[i]] with Python's negative indices. *)
Definition getitem {A : Type} (l : list A) (i : Z) : result A :=
  let j := if i <? 0 then i + len l else i in
  if j <? 0 then Raise IndexError
  else match nth_error l (Z.to_nat j) with
       | Some a => Ok a
       | None => Raise IndexError
       end.

(** [l[st:en]] for [0 <= st] and [0 <= en]. *)
Definition slice {A : Type} (l : list A) (st en : Z) : list A :=
  firstn (Z.to_nat (en - st)) (skipn (Z.to_nat st) l).

Definition isspace (c : ascii) : bool :=
  let n := N_of_ascii c in
  (((9 <=? n) && (n <=? 13)) || ((28 <=? n) && (n <=? 32))
   || (n =? 133) || (n =? 160))%N.

Definition isdigit (c : ascii) : bool :=
  let n := N_of_ascii c in ((48 <=? n) && (n <=? 57))%N.

Definition is_empty (s : string) : bool :=
  match s with
  | EmptyString => true
  | String _ _ => false
  end.

(** [s.split()]: the maximal runs of non-whitespace characters.  [w] is the
    run being read. *)
Fixpoint split_from (w s : string) : list string :=
  match s with
  | EmptyString => if is_empty w then [] else [w]
  | String c s' =>
      if isspace c
      then if is_empty w then split_from "" s' else w :: split_from "" s'
      else split_from (w ++ String c "")%string s'
  end.

Definition split (s : string) : list string := split_from "" s.

Fixpoint lstrip (s : string) : string :=
  match s with
  | EmptyString => ""
  | String c s' => if isspace c then lstrip s' else s
  end.

Fixpoint rstrip (s : string) : string :=
  match s with
  | EmptyString => ""
  | String c s' =>
      let r := rstrip s' in
      if isspace c && is_empty r then "" else String c r
  end.

(** [s.strip()] *)
Definition strip (s : string) : string := rstrip (lstrip s).

(** [sep.join(l)] *)
Fixpoint join (sep : string) (l : list string) : string :=
  match l with
  | [] => ""
  | [x] => x
  | x :: l' => (x ++ sep ++ join sep l')%string
  end.

(** [re.search(r"\d", s)] as a truth value. *)
Fixpoint search_digit (s : string) : bool :=
  match s with
  | EmptyString => false
  | String c s' => isdigit c || search_digit s'
  end.

(** [float(n)] for an [int] [n]. *)
Definition to_float (n : Z) : float := PrimFloat.of_uint63 (Uint63.of_Z n).

End Py.

Import Py.

Declare Scope py_scope.
Notation "x <- m ;; k" := (bind m (fun x => k))
  (at level 61, m at next level, right associativity) : py_scope.
Local Open Scope py_scope.

(** ** preprocess_chunk.py *)

(** The attributes of [self] that the chunking methods read; [tokenize] is
    [self.tokenizer.tokenize]. *)
Record Chunker : Type := {
  seq_length : option Z;
  token_seq_length : Z;
  parallelize : bool;
  cpu_count : Z;
  tokenize : string -> list string
}.

(** What [chunker_function_] returns: a [str] or a [list] of [str]. *)
Inductive chunked : Type :=
| Joined (s : string)
| Chunks (l : list string).

(** *** [chunk_based_on_seq_len] *)

Module SeqLen.

Record state : Type := {
  temp_new_chunk_list : list string;
  temp_sent : string
}.

Definition init : state :=
  {| temp_new_chunk_list := []; temp_sent := "" |}.

(** The body of the loop, for a set [seq_length]. *)
Definition body (seq_len : Z) (st : state) (sent : string) : state :=
  let temp_sent' := (temp_sent st ++ " " ++ sent)%string in
  if len (split temp_sent') >? seq_len
  then {| temp_new_chunk_list := temp_new_chunk_list st ++ [strip temp_sent'];
          temp_sent := "" |}
  else {| temp_new_chunk_list := temp_new_chunk_list st;
          temp_sent := temp_sent' |}.

Definition run (seq_len : Z) (sent_list : list string) (st : state) : state :=
  fold_left (body seq_len) sent_list st.

End SeqLen.

Definition chunk_based_on_seq_len (seq_len : Z) (sent_list : list string)
  : list string :=
  SeqLen.temp_new_chunk_list (SeqLen.run seq_len sent_list SeqLen.init).

(** *** [prev_chunk_based_on_token_seq_len] *)

Module TokenSeqLen.

Record state : Type := {
  temp_new_chunk_list : list string;
  temp_sent : string;
  temp_sent_list : list string
}.

Definition init : state :=
  {| temp_new_chunk_list := []; temp_sent := ""; temp_sent_list := [] |}.

Definition body (self : Chunker) (st : state) (sent : string) : result state :=
  let temp_sent' := (temp_sent st ++ " " ++ sent)%string in
  let temp_sent_list' := temp_sent_list st ++ [strip temp_sent'] in
  last <- getitem temp_sent_list' (-1) ;;
  let tokenized_input := tokenize self last in
  if len tokenized_input >? token_seq_length self
  then
    prev <- getitem temp_sent_list' (-2) ;;
    Ok {| temp_new_chunk_list := temp_new_chunk_list st ++ [prev];
          temp_sent := "";
          temp_sent_list := temp_sent_list' |}
  else
    Ok {| temp_new_chunk_list := temp_new_chunk_list st;
          temp_sent := temp_sent';
          temp_sent_list := temp_sent_list' |}.

Definition run (self : Chunker) (sent_list : list string) (st : state)
  : result state :=
  for_each (body self) sent_list st.

End TokenSeqLen.

Definition prev_chunk_based_on_token_seq_len (self : Chunker)
           (sent_list : list string) : result (list string) :=
  st <- TokenSeqLen.run self sent_list TokenSeqLen.init ;;
  Ok (TokenSeqLen.temp_new_chunk_list st).

(** *** [parallel_chunker_prev_chunk_based_on_token_seq_len] *)

Fixpoint cumsum (acc : Z) (l : list Z) : list Z :=
  match l with
  | [] => []
  | x :: l' => (acc + x) :: cumsum (acc + x) l'
  end.

(** What reading an element of a numpy string array gives.  [np.asarray]
    stores a list of [str] in fixed-width cells padded with NUL characters,
    and reading a cell drops every trailing NUL: those of the padding and
    those of the string itself. *)
Definition NUL : ascii := Ascii.zero.

Fixpoint np_str (s : string) : string :=
  match s with
  | EmptyString => ""
  | String c s' =>
      let r := np_str s' in
      if Ascii.eqb c NUL && is_empty r then "" else String c r
  end.

(** The elements of [np.asarray(l)] for a list [l] of [str]. *)
Definition as_str_array (l : list string) : list string := map np_str l.

(** The cutting of [np.array_split]: [Nsections] sections of an array,
    the first [Ntotal mod Nsections] of them one element longer. *)
Definition split_sections {A : Type} (ary : list A) (Nsections : Z)
  : result (list (list A)) :=
  let Ntotal := len ary in
  if Nsections <=? 0 then Raise ValueError
  else
    let Neach_section := Ntotal / Nsections in
    let extras := Ntotal mod Nsections in
    let section_sizes :=
      [0] ++ repeat (Neach_section + 1) (Z.to_nat extras)
          ++ repeat Neach_section (Z.to_nat (Nsections - extras)) in
    let div_points := cumsum 0 section_sizes in
    Ok (map (fun i => slice ary (nth i div_points 0) (nth (S i) div_points 0))
            (seq 0 (Z.to_nat Nsections))).

(** [np.array_split(ary, Nsections)] for a list [ary] of [str] and an
    integer [Nsections]: the list becomes a string array, which is cut. *)
Definition array_split (ary : list string) (Nsections : Z)
  : result (list (list string)) :=
  split_sections (as_str_array ary) Nsections.

(** [np.concatenate(ls).ravel().tolist()] on a list of lists of [str]: the
    lists become string arrays (an empty list adds no element), and the
    elements are read back. *)
Definition np_concatenate (ls : list (list string)) : result (list string) :=
  match ls with
  | [] => Raise ValueError
  | _ => Ok (as_str_array (List.concat ls))
  end.

Definition parallel_chunker_prev_chunk_based_on_token_seq_len
           (self : Chunker) (sent_list : list string) : result (list string) :=
  sent_list_chunks <- array_split sent_list (cpu_count self) ;;
  list_of_temp_new_chunk_list <-
    map_each (prev_chunk_based_on_token_seq_len self) sent_list_chunks ;;
  np_concatenate list_of_temp_new_chunk_list.

(** A string without any NUL character: a numpy string array gives it
    back as it is. *)
Fixpoint nul_free (s : string) : bool :=
  match s with
  | EmptyString => true
  | String c s' => negb (Ascii.eqb c NUL) && nul_free s'
  end.

(** *** Partitions, as the specification words them

    A cutting of the sentences into [k] consecutive slices, in order, whose
    sizes differ by one at most; and the sequential strategy run on every
    slice of a cutting, the chunk lists concatenated in slice order. *)

Definition near_equal_partition (k : Z) (sent_list : list string)
           (slices : list (list string)) : Prop :=
  len slices = k
  /\ List.concat slices = sent_list
  /\ forall sl sl', In sl slices -> In sl' slices -> len sl <= len sl' + 1.

Definition sequential_on_slices (self : Chunker) (slices : list (list string))
  : result (list string) :=
  chunk_lists <- map_each (prev_chunk_based_on_token_seq_len self) slices ;;
  Ok (List.concat chunk_lists).

(** *** [chunker_function_] *)

Definition chunker_function_ (self : Chunker) (sent_list : list string)
  : result chunked :=
  if len sent_list <? 10 then Ok (Joined (join " " sent_list))
  else
    match seq_length self with
    | None =>
        if parallelize self
        then l <- parallel_chunker_prev_chunk_based_on_token_seq_len
                    self sent_list ;; Ok (Chunks l)
        else l <- prev_chunk_based_on_token_seq_len self sent_list ;;
             Ok (Chunks l)
    | Some seq_len => Ok (Chunks (chunk_based_on_seq_len seq_len sent_list))
    end.

(** A chunker whose tokenizer yields the whitespace-separated words. *)
Definition word_chunker (budget : Z) (par : bool) (cpus : Z) : Chunker :=
  {| seq_length := None; token_seq_length := budget; parallelize := par;
     cpu_count := cpus; tokenize := split |}.

(** ** word_cleaner.py *)

(** The attributes that [Word_Cleaner.__init__] stores. *)
Record Word_Cleaner : Type := {
  counting_avg : float;
  number_ratio : float;
  short_word_threshold : Z
}.

(** [Word_Cleaner()] *)
Definition default_cleaner : Word_Cleaner :=
  {| counting_avg := 0.65%float;
     number_ratio := 0.7%float;
     short_word_threshold := 7 |}.

Definition strlen (s : string) : Z := Z.of_nat (String.length s).

Definition _has_numbers (inputString : string) : bool :=
  search_digit inputString.

(** *** [counting_length_of_letters_and_if_to_many_remove] *)

Module LengthCounter.

(** The dict [{"long": _, "short": _}]. *)
Record counter_word_length : Type := {
  long : Z;
  short : Z
}.

Definition count_word (c : counter_word_length) (word : string)
  : counter_word_length :=
  if strlen word >? 1
  then {| long := long c + 1; short := short c |}
  else {| long := long c; short := short c + 1 |}.

Definition counter_avg (sent : string) : float :=
  let splitted_sent := split sent in
  let c := fold_left count_word splitted_sent {| long := 0; short := 0 |} in
  let counter_ratio :=
    ((to_float (long c) + 0.5) / (to_float (short c) + 0.001))%float in
  let counter_ratio_len :=
    (1 - (to_float (short c) / (to_float (len splitted_sent) + 0.1)))%float in
  ((counter_ratio + counter_ratio_len) / 2)%float.

Definition body (self : Word_Cleaner) (new_sent_list : list string)
           (sent : string) : list string :=
  if (counting_avg self <? counter_avg sent)%float
  then new_sent_list ++ [sent]
  else if len (split sent) <? short_word_threshold self
       then new_sent_list ++ [sent]
       else new_sent_list.

End LengthCounter.

Definition counting_length_of_letters_and_if_to_many_remove
           (self : Word_Cleaner) (sent_list : list string) : list string :=
  fold_left (LengthCounter.body self) sent_list [].

(** *** [counting_sequence_length_of_numbers] *)

Module NumberCounter.

(** The dict [{"digit": _, "not_digit": _}]. *)
Record counter_word_length : Type := {
  digit : Z;
  not_digit : Z
}.

Definition count_word (c : counter_word_length) (word : string)
  : counter_word_length :=
  if _has_numbers word
  then {| digit := digit c + 1; not_digit := not_digit c |}
  else {| digit := digit c; not_digit := not_digit c + 1 |}.

Definition body (self : Word_Cleaner) (new_sent_list : list string)
           (sent : string) : list string :=
  if negb (_has_numbers sent)
  then new_sent_list ++ [sent]
  else
    let splitted_sent := split sent in
    let c :=
      fold_left count_word splitted_sent {| digit := 0; not_digit := 0 |} in
    let ratio := (to_float (digit c) / (to_float (not_digit c) + 0.01))%float in
    if (ratio <? number_ratio self)%float
    then new_sent_list ++ [sent]
    else new_sent_list.

End NumberCounter.

Definition counting_sequence_length_of_numbers
           (self : Word_Cleaner) (sent_list : list string) : list string :=
  fold_left (NumberCounter.body self) sent_list [].

(** *** [clean_pipe] *)

Definition clean_pipe (self : Word_Cleaner) (sent_list : list string)
  : list string :=
  let length_filter_sent_list :=
    counting_length_of_letters_and_if_to_many_remove self sent_list in
  let number_and_length_filter_sent_list :=
    counting_sequence_length_of_numbers self length_filter_sent_list in
  number_and_length_filter_sent_list.

(** *** The filter passes as the specification words them

    A sentence is kept by pass A when [avg > counting_avg] or when it has
    fewer than [short_word_threshold] words, with [long] and [short] the
    numbers of words longer than one character and of the others; by pass
    B when it holds no digit, or when the ratio of its digit-bearing words
    stays under [number_ratio]. *)

Definition long_words (ws : list string) : Z :=
  len (filter (fun w => strlen w >? 1) ws).

Definition short_words (ws : list string) : Z :=
  len (filter (fun w => strlen w <=? 1) ws).

Definition avg_spec (sent : string) : float :=
  let ws := split sent in
  let ratio :=
    ((to_float (long_words ws) + 0.5) / (to_float (short_words ws) + 0.001))%float in
  let ratio_len :=
    (1 - (to_float (short_words ws) / (to_float (len ws) + 0.1)))%float in
  ((ratio + ratio_len) / 2)%float.

Definition pass_A_keeps (self : Word_Cleaner) (sent : string) : bool :=
  (counting_avg self <? avg_spec sent)%float
  || (len (split sent) <? short_word_threshold self).

Definition digit_words (ws : list string) : Z :=
  len (filter _has_numbers ws).

Definition not_digit_words (ws : list string) : Z :=
  len (filter (fun w => negb (_has_numbers w)) ws).

Definition pass_B_keeps (self : Word_Cleaner) (sent : string) : bool :=
  negb (_has_numbers sent)
  || (to_float (digit_words (split sent))
      / (to_float (not_digit_words (split sent)) + 0.01)
      <? number_ratio self)%float.

(** A sentence without any word: empty, or whitespace only. *)
Definition no_words (sent : string) : bool :=
  match split sent with
  | [] => true
  | _ :: _ => false
  end.

(** *** Accumulators and segments

    [accumulate temp sents] is [temp_sent] after the sentences [sents] were
    appended to [temp] one by one with no reset in between; [chunk_of] is
    the chunk made of a run of consecutive sentences. *)

Definition accumulate (temp : string) (sents : list string) : string :=
  fold_left (fun t sent => (t ++ " " ++ sent)%string) sents temp.

Definition chunk_of (sents : list string) : string :=
  strip (accumulate "" sents).

(** [chop sizes l] cuts [l] into consecutive pieces of the given sizes. *)
Fixpoint chop {A : Type} (sizes : list nat) (l : list A) : list (list A) :=
  match sizes with
  | [] => []
  | n :: sizes' => firstn n l :: chop sizes' (skipn n l)
  end.

(** *** Words of sentences

    [words sents] are the whitespace-separated words of the sentences
    [sents], in order. *)

Definition words (sents : list string) : list string :=
  List.concat (map split sents).

(** A run of sentences that goes over a word budget by its last sentence
    only. *)
Definition over_by_last (budget : Z) (seg : list string) : Prop :=
  exists init last,
    seg = init ++ [last]
    /\ len (words init) <= budget
    /\ budget < len (words seg).

(** *** Runs and pieces of the input

    [run_of sent_list chunk]: the chunk is made of a non-empty run of
    consecutive sentences of the input.  A piece is such a run together with
    the sentence that follows it. *)

Definition run_of (sent_list : list string) (chunk : string) : Prop :=
  exists pre seg post,
    sent_list = pre ++ seg ++ post /\ seg <> [] /\ chunk = chunk_of seg.

Definition piece_sentences (p : list string * string) : list string :=
  fst p ++ [snd p].

(** * Properties *)

(** ** The embedding at work *)

Example split_runs_of_whitespace :
  split "  heJ HEJ  The     quick brown    fox, " =
  ["heJ"; "HEJ"; "The"; "quick"; "brown"; "fox,"].
Proof. reflexivity. Qed.

Example strip_both_ends : strip "  God t !  " = "God t !".
Proof. reflexivity. Qed.

Example spaced_letters_are_dropped :
  counting_length_of_letters_and_if_to_many_remove default_cleaner
    ["Psykologiska g a t o r hej hej "; "-- Gott Godt!"; "-- God t !"] =
  ["-- Gott Godt!"; "-- God t !"].
Proof. vm_compute. reflexivity. Qed.

Example digit_ratio_scenario :
  counting_sequence_length_of_numbers default_cleaner
    ["1 2 3 4 5 6 word"; "ord 1 ord ord"] = ["ord 1 ord ord"].
Proof. vm_compute. reflexivity. Qed.

Example word_count_strategy_run :
  chunk_based_on_seq_len 2
    ["a"; "b"; "c d"; "e"; "f"; "g"; "h"; "i"; "j"; "k"] =
  ["a b c d"; "e f g"; "h i j"].
Proof. reflexivity. Qed.

Example array_split_ten_in_three :
  array_split ["a"; "b"; "c d"; "e"; "f"; "g"; "h"; "i"; "j"; "k"] 3 =
  Ok [["a"; "b"; "c d"; "e"]; ["f"; "g"; "h"]; ["i"; "j"; "k"]].
Proof. reflexivity. Qed.

Example negative_indices :
  getitem ["x"; "y"; "z"] (-1) = Ok "z"
  /\ getitem ["x"; "y"; "z"] (-2) = Ok "y"
  /\ getitem ["x"; "y"; "z"] 3 = Raise IndexError
  /\ getitem ["x"; "y"; "z"] (-4) = Raise IndexError.
Proof. repeat split. Qed.

(** ** Loops that append under a condition *)

Section AppendLoop.

Context {A : Type}.
Variable keep : A -> bool.
Variable body : list A -> A -> list A.
Hypothesis body_keep :
  forall acc x, body acc x = if keep x then acc ++ [x] else acc.

Lemma append_loop_from (l acc : list A) :
  fold_left body l acc = acc ++ filter keep l.
Proof.
  revert acc.
  induction l as [|x l IH]; intros acc; simpl.
  - now rewrite app_nil_r.
  - rewrite IH, body_keep.
    destruct (keep x); simpl; [now rewrite <- app_assoc | reflexivity].
Qed.

Lemma append_loop (l : list A) : fold_left body l [] = filter keep l.
Proof. apply append_loop_from. Qed.

End AppendLoop.

Lemma filter_idem {A : Type} (p : A -> bool) (l : list A) :
  filter p (filter p l) = filter p l.
Proof.
  induction l as [|x l IH]; simpl; [reflexivity|].
  destruct (p x) eqn:E; simpl; [rewrite E, IH|]; auto.
Qed.

Lemma filter_shrinks {A : Type} (p : A -> bool) (l : list A) :
  (List.length (filter p l) <= List.length l)%nat.
Proof.
  induction l as [|x l IH]; simpl; [lia|].
  destruct (p x); simpl; lia.
Qed.

(** ** Word counters *)

Lemma length_counter_fold (ws : list string) (c : LengthCounter.counter_word_length) :
  fold_left LengthCounter.count_word ws c =
  {| LengthCounter.long := LengthCounter.long c + long_words ws;
     LengthCounter.short := LengthCounter.short c + short_words ws |}.
Proof.
  revert c.
  induction ws as [|w ws IH]; intros [lo sh]; simpl.
  - unfold long_words, short_words, len; simpl. f_equal; lia.
  - rewrite IH. unfold LengthCounter.count_word, long_words, short_words, len.
    simpl. rewrite Z.gtb_ltb, Z.leb_antisym.
    destruct (1 <? strlen w); simpl; f_equal; lia.
Qed.

Lemma number_counter_fold (ws : list string) (c : NumberCounter.counter_word_length) :
  fold_left NumberCounter.count_word ws c =
  {| NumberCounter.digit := NumberCounter.digit c + digit_words ws;
     NumberCounter.not_digit := NumberCounter.not_digit c + not_digit_words ws |}.
Proof.
  revert c.
  induction ws as [|w ws IH]; intros [d nd]; simpl.
  - unfold digit_words, not_digit_words, len; simpl. f_equal; lia.
  - rewrite IH. unfold NumberCounter.count_word, digit_words, not_digit_words, len.
    simpl. destruct (_has_numbers w); simpl; f_equal; lia.
Qed.

Lemma counter_avg_spec (sent : string) :
  LengthCounter.counter_avg sent = avg_spec sent.
Proof.
  unfold LengthCounter.counter_avg, avg_spec.
  rewrite length_counter_fold. reflexivity.
Qed.

Lemma length_body_keeps (self : Word_Cleaner) (acc : list string) (sent : string) :
  LengthCounter.body self acc sent =
  if pass_A_keeps self sent then acc ++ [sent] else acc.
Proof.
  unfold LengthCounter.body, pass_A_keeps.
  rewrite counter_avg_spec.
  destruct (counting_avg self <? avg_spec sent)%float; simpl; [reflexivity|].
  destruct (len (split sent) <? short_word_threshold self); reflexivity.
Qed.

Lemma number_body_keeps (self : Word_Cleaner) (acc : list string) (sent : string) :
  NumberCounter.body self acc sent =
  if pass_B_keeps self sent then acc ++ [sent] else acc.
Proof.
  unfold NumberCounter.body, pass_B_keeps.
  destruct (_has_numbers sent); simpl; [|reflexivity].
  rewrite number_counter_fold. reflexivity.
Qed.

Lemma pass_B_filter (self : Word_Cleaner) (sent_list : list string) :
  counting_sequence_length_of_numbers self sent_list =
  filter (pass_B_keeps self) sent_list.
Proof. apply append_loop, number_body_keeps. Qed.

Lemma pass_A_filter (self : Word_Cleaner) (sent_list : list string) :
  counting_length_of_letters_and_if_to_many_remove self sent_list =
  filter (pass_A_keeps self) sent_list.
Proof. apply append_loop, length_body_keeps. Qed.

(** ** Pass A and pass B *)

(** C5: pass A returns, in input order, exactly the sentences with
    [avg > counting_avg] or fewer than [short_word_threshold] words, where
    [avg] is computed from the counts of long and short words by the
    formulas of the specification. *)
Theorem pass_A_keeps_exactly (self : Word_Cleaner) (sent_list : list string) :
  counting_length_of_letters_and_if_to_many_remove self sent_list =
  filter (fun sent =>
            (counting_avg self <? avg_spec sent)%float
            || (len (split sent) <? short_word_threshold self))
         sent_list.
Proof. apply pass_A_filter. Qed.

(** C6: pass A applied to its own output changes nothing, and neither
    does pass B applied to its own output. *)
Theorem passes_idempotent (self : Word_Cleaner) (S : list string) :
  counting_length_of_letters_and_if_to_many_remove self
    (counting_length_of_letters_and_if_to_many_remove self S) =
  counting_length_of_letters_and_if_to_many_remove self S
  /\ counting_sequence_length_of_numbers self
       (counting_sequence_length_of_numbers self S) =
     counting_sequence_length_of_numbers self S.
Proof.
  rewrite !pass_A_filter, !pass_B_filter. split; apply filter_idem.
Qed.

(** C7: [clean_pipe] never returns more sentences than it was given, and
    returns the empty list on the empty list. *)
Theorem clean_pipe_shrinks (self : Word_Cleaner) (S : list string) :
  len (clean_pipe self S) <= len S /\ clean_pipe self [] = [].
Proof.
  split; [|reflexivity].
  unfold clean_pipe, len. rewrite pass_B_filter, pass_A_filter.
  pose proof (filter_shrinks (pass_B_keeps self) (filter (pass_A_keeps self) S)).
  pose proof (filter_shrinks (pass_A_keeps self) S).
  lia.
Qed.

(** ** Sentences without words *)

Lemma isspace_not_digit (c : ascii) : isspace c = true -> isdigit c = false.
Proof.
  destruct c as [[] [] [] [] [] [] [] []]; vm_compute; congruence.
Qed.

Lemma split_from_nil (s w : string) :
  split_from w s = [] -> is_empty w = true /\ search_digit s = false.
Proof.
  revert w.
  induction s as [|c s IH]; intros w; simpl.
  - destruct (is_empty w); [auto | discriminate].
  - destruct (isspace c) eqn:Hc.
    + destruct (is_empty w) eqn:Hw; [|discriminate].
      intros H. apply IH in H as [_ H].
      now rewrite (isspace_not_digit c Hc), H.
    + intros H. apply IH in H as [H _].
      destruct w; discriminate.
Qed.

Lemma no_words_split (sent : string) : no_words sent = true -> split sent = [].
Proof. unfold no_words. destruct (split sent); [reflexivity | discriminate]. Qed.

Lemma no_words_no_digit (sent : string) :
  no_words sent = true -> _has_numbers sent = false.
Proof.
  intros H. apply no_words_split in H.
  now apply (split_from_nil sent "").
Qed.

Lemma no_words_avg (sent : string) :
  no_words sent = true -> avg_spec sent = 250.5%float.
Proof.
  intros H. apply no_words_split in H.
  unfold avg_spec. rewrite H. vm_compute. reflexivity.
Qed.

Lemma filter_keeps_selected {A : Type} (sel p : A -> bool) (l : list A) :
  (forall x, sel x = true -> p x = true) ->
  filter sel (filter p l) = filter sel l.
Proof.
  intros Hp.
  induction l as [|x l IH]; simpl; [reflexivity|].
  destruct (sel x) eqn:Hs.
  - rewrite (Hp x Hs). simpl. now rewrite Hs, IH.
  - destruct (p x); simpl; [now rewrite Hs|]; exact IH.
Qed.

(** C10: when [counting_avg < 250.5], the sentences without words pass
    through [clean_pipe] untouched: each one of the input is in the output,
    and the output holds the same wordless sentences in the same order.
    Pass A computes [avg = 250.5] for them and pass B finds no digit. *)
Theorem clean_pipe_keeps_wordless (self : Word_Cleaner) (S : list string)
        (Havg : (counting_avg self <? 250.5)%float = true) :
  (forall sent, In sent S -> split sent = [] ->
                LengthCounter.counter_avg sent = 250.5%float
                /\ _has_numbers sent = false
                /\ In sent (clean_pipe self S))
  /\ filter no_words (clean_pipe self S) = filter no_words S.
Proof.
  assert (HA : forall x, no_words x = true -> pass_A_keeps self x = true).
  { intros x Hx. unfold pass_A_keeps. now rewrite (no_words_avg x Hx), Havg. }
  assert (HB : forall x, no_words x = true -> pass_B_keeps self x = true).
  { intros x Hx. unfold pass_B_keeps. now rewrite (no_words_no_digit x Hx). }
  unfold clean_pipe. rewrite pass_B_filter, pass_A_filter. split.
  - intros sent Hin Hs.
    assert (Hn : no_words sent = true) by (unfold no_words; now rewrite Hs).
    rewrite counter_avg_spec. repeat split.
    + now apply no_words_avg.
    + now apply no_words_no_digit.
    + apply filter_In. split; [apply filter_In; split|]; auto.
  - now rewrite !filter_keeps_selected.
Qed.

(** The default thresholds: the empty and the blank sentence stay, the
    spaced-out letters go. *)
Lemma clean_pipe_keeps_wordless_default :
  (counting_avg default_cleaner <? 250.5)%float = true
  /\ filter no_words
       (clean_pipe default_cleaner [""; "h e j h e j h e j"; "  "; "ord"]) =
     [""; "  "]
  /\ In "  " (clean_pipe default_cleaner [""; "h e j h e j h e j"; "  "; "ord"]).
Proof.
  pose proof (clean_pipe_keeps_wordless default_cleaner
                [""; "h e j h e j h e j"; "  "; "ord"] eq_refl) as [H1 H2].
  split; [reflexivity|]. split.
  - rewrite H2. reflexivity.
  - apply (H1 "  "); [simpl; tauto | reflexivity].
Defined.

(** ** Indexing from the end *)

Lemma len_app {A : Type} (l1 l2 : list A) : len (l1 ++ l2) = len l1 + len l2.
Proof. unfold len. rewrite length_app. lia. Qed.

Lemma getitem_last {A : Type} (l : list A) (x : A) :
  getitem (l ++ [x]) (-1) = Ok x.
Proof.
  unfold getitem. cbv zeta. change (-1 <? 0) with true. cbv iota.
  rewrite len_app.
  replace (-1 + (len l + len [x])) with (len l)
    by (unfold len; cbn [List.length]; lia).
  destruct (Z.ltb_spec (len l) 0) as [H|H]; [unfold len in H; lia|].
  unfold len. rewrite Nat2Z.id, nth_error_app2, Nat.sub_diag by lia.
  reflexivity.
Qed.

Lemma getitem_before_last {A : Type} (l : list A) (y x : A) :
  getitem ((l ++ [y]) ++ [x]) (-2) = Ok y.
Proof.
  unfold getitem. cbv zeta. change (-2 <? 0) with true. cbv iota.
  rewrite !len_app.
  replace (-2 + (len l + len [y] + len [x])) with (len l)
    by (unfold len; cbn [List.length]; lia).
  destruct (Z.ltb_spec (len l) 0) as [H|H]; [unfold len in H; lia|].
  unfold len. rewrite Nat2Z.id.
  rewrite nth_error_app1 by (rewrite length_app; simpl; lia).
  rewrite nth_error_app2, Nat.sub_diag by lia.
  reflexivity.
Qed.

Lemma getitem_before_only {A : Type} (x : A) :
  getitem [x] (-2) = Raise IndexError.
Proof. reflexivity. Qed.

Lemma strip_leading_space (s : string) : strip (" " ++ s) = strip s.
Proof. reflexivity. Qed.

(** ** The dispatcher *)

(** C9: with fewer than ten sentences [chunker_function_] returns the
    sentences joined by single spaces, as one string, whatever the budgets
    and flags; the nine letters [a]..[i] give ["a b c d e f g h i"]. *)
Theorem chunker_function_small (self : Chunker) (sent_list : list string)
        (Hsmall : len sent_list < 10) :
  chunker_function_ self sent_list = Ok (Joined (join " " sent_list))
  /\ chunker_function_ self ["a"; "b"; "c"; "d"; "e"; "f"; "g"; "h"; "i"] =
     Ok (Joined "a b c d e f g h i").
Proof.
  split; [|reflexivity].
  unfold chunker_function_.
  now apply Z.ltb_lt in Hsmall as ->.
Qed.

(** Two sentences, whatever the flags. *)
Lemma chunker_function_small_two :
  len ["hej"; "du"] < 10
  /\ chunker_function_ (word_chunker 1 true 4) ["hej"; "du"] =
     Ok (Joined "hej du").
Proof.
  split; [reflexivity|].
  exact (proj1 (chunker_function_small (word_chunker 1 true 4) ["hej"; "du"]
                  eq_refl)).
Defined.

(** ** The tokenizer-budget strategy *)

(** C3: when the first sentence alone, stripped, has more tokens than
    [token_seq_length], the first iteration reads index [-2] of a history
    of one snapshot and the call ends in [IndexError], whatever follows. *)
Theorem first_sentence_overflow (self : Chunker) (sent : string)
        (rest : list string)
        (Hover : len (tokenize self (strip sent)) > token_seq_length self) :
  TokenSeqLen.body self TokenSeqLen.init sent = Raise IndexError
  /\ prev_chunk_based_on_token_seq_len self (sent :: rest) = Raise IndexError.
Proof.
  assert (Hbody : TokenSeqLen.body self TokenSeqLen.init sent = Raise IndexError).
  { unfold TokenSeqLen.body.
    cbn [TokenSeqLen.temp_sent TokenSeqLen.temp_sent_list TokenSeqLen.init].
    rewrite getitem_last. cbn [bind].
    change ("" ++ " " ++ sent)%string with (" " ++ sent)%string.
    rewrite strip_leading_space.
    apply Z.gtb_gt in Hover. rewrite Hover. reflexivity. }
  split; [exact Hbody|].
  unfold prev_chunk_based_on_token_seq_len, TokenSeqLen.run.
  cbn [for_each]. rewrite Hbody. reflexivity.
Qed.

(** A first sentence of two tokens under a budget of one. *)
Lemma first_sentence_overflow_example :
  len (tokenize (word_chunker 1 false 1) (strip "c d")) > 1
  /\ prev_chunk_based_on_token_seq_len (word_chunker 1 false 1)
       ["c d"; "e"; "f"] = Raise IndexError.
Proof.
  split; [reflexivity|].
  exact (proj2 (first_sentence_overflow (word_chunker 1 false 1) "c d"
                  ["e"; "f"] eq_refl)).
Defined.

(** ** Runs of the two loops *)

Lemma for_each_app {S X : Type} (body : S -> X -> result S)
      (xs ys : list X) (st : S) :
  for_each body (xs ++ ys) st = (st' <- for_each body xs st ;; for_each body ys st').
Proof.
  revert st.
  induction xs as [|x xs IH]; intros st; simpl; [reflexivity|].
  destruct (body st x); simpl; auto.
Qed.

Lemma accumulate_snoc (temp : string) (sents : list string) (sent : string) :
  accumulate temp (sents ++ [sent]) = (accumulate temp sents ++ " " ++ sent)%string.
Proof. unfold accumulate. now rewrite fold_left_app. Qed.

Lemma seq_len_run_quiet (seq_len : Z) (sent_list : list string) (st : SeqLen.state) :
  (forall n, (1 <= n <= List.length sent_list)%nat ->
             len (split (accumulate (SeqLen.temp_sent st) (firstn n sent_list)))
             <= seq_len) ->
  SeqLen.run seq_len sent_list st =
  {| SeqLen.temp_new_chunk_list := SeqLen.temp_new_chunk_list st;
     SeqLen.temp_sent := accumulate (SeqLen.temp_sent st) sent_list |}.
Proof.
  revert st.
  induction sent_list as [|sent rest IH]; intros [chunks temp] Hq.
  - reflexivity.
  - cbn [SeqLen.temp_sent SeqLen.temp_new_chunk_list] in *.
    unfold SeqLen.run in *. cbn [fold_left].
    unfold SeqLen.body at 2. cbn [SeqLen.temp_sent SeqLen.temp_new_chunk_list].
    pose proof (Hq 1%nat ltac:(simpl; lia)) as H1.
    change (accumulate temp (firstn 1 (sent :: rest)))
      with (temp ++ " " ++ sent)%string in H1.
    destruct (Z.gtb_spec (len (split (temp ++ " " ++ sent))) seq_len) as [Hgt|_];
      [lia|].
    rewrite IH; [reflexivity|].
    intros n Hn. cbn [SeqLen.temp_sent].
    apply (Hq (S n)). simpl. lia.
Qed.

Lemma token_run_quiet (self : Chunker) (sent_list : list string)
      (st : TokenSeqLen.state) :
  (forall n, (1 <= n <= List.length sent_list)%nat ->
             len (tokenize self
                    (strip (accumulate (TokenSeqLen.temp_sent st)
                                       (firstn n sent_list))))
             <= token_seq_length self) ->
  exists history,
    TokenSeqLen.run self sent_list st =
    Ok {| TokenSeqLen.temp_new_chunk_list := TokenSeqLen.temp_new_chunk_list st;
          TokenSeqLen.temp_sent := accumulate (TokenSeqLen.temp_sent st) sent_list;
          TokenSeqLen.temp_sent_list := history |}.
Proof.
  revert st.
  induction sent_list as [|sent rest IH]; intros [chunks temp hist] Hq.
  - exists hist. reflexivity.
  - cbn [TokenSeqLen.temp_sent TokenSeqLen.temp_new_chunk_list] in *.
    unfold TokenSeqLen.run in *. cbn [for_each].
    unfold TokenSeqLen.body at 1.
    cbn [TokenSeqLen.temp_sent TokenSeqLen.temp_new_chunk_list
         TokenSeqLen.temp_sent_list].
    rewrite getitem_last. cbn [bind].
    pose proof (Hq 1%nat ltac:(simpl; lia)) as H1.
    change (accumulate temp (firstn 1 (sent :: rest)))
      with (temp ++ " " ++ sent)%string in H1.
    destruct (Z.gtb_spec (len (tokenize self (strip (temp ++ " " ++ sent))))
                         (token_seq_length self)) as [Hgt|_];
      [lia|].
    cbn [bind].
    apply (IH {| TokenSeqLen.temp_new_chunk_list := chunks;
                 TokenSeqLen.temp_sent := (temp ++ " " ++ sent)%string;
                 TokenSeqLen.temp_sent_list :=
                   hist ++ [strip (temp ++ " " ++ sent)] |}).
    intros n Hn. cbn [TokenSeqLen.temp_sent]. apply (Hq (S n)). simpl. lia.
Qed.

(** C8: an input that never takes the accumulator over the budget yields no
    chunk at all, in the word-count strategy and in the tokenizer-budget
    strategy alike: the loop ends with every sentence still in [temp_sent],
    which is not returned. *)
Theorem never_over_budget_no_chunks (self : Chunker) (seq_len : Z)
        (sent_list : list string) :
  ((forall n, (1 <= n <= List.length sent_list)%nat ->
              len (split (accumulate "" (firstn n sent_list))) <= seq_len) ->
   SeqLen.run seq_len sent_list SeqLen.init =
   {| SeqLen.temp_new_chunk_list := [];
      SeqLen.temp_sent := accumulate "" sent_list |}
   /\ chunk_based_on_seq_len seq_len sent_list = [])
  /\
  ((forall n, (1 <= n <= List.length sent_list)%nat ->
              len (tokenize self (chunk_of (firstn n sent_list)))
              <= token_seq_length self) ->
   (exists history,
       TokenSeqLen.run self sent_list TokenSeqLen.init =
       Ok {| TokenSeqLen.temp_new_chunk_list := [];
             TokenSeqLen.temp_sent := accumulate "" sent_list;
             TokenSeqLen.temp_sent_list := history |})
   /\ prev_chunk_based_on_token_seq_len self sent_list = Ok []).
Proof.
  split; intros Hq.
  - pose proof (seq_len_run_quiet seq_len sent_list SeqLen.init Hq) as H.
    split; [exact H|].
    unfold chunk_based_on_seq_len. now rewrite H.
  - destruct (token_run_quiet self sent_list TokenSeqLen.init Hq) as [h H].
    split; [now exists h|].
    unfold prev_chunk_based_on_token_seq_len. now rewrite H.
Qed.

(** Five words in all under a budget of five. *)
Lemma never_over_budget_example :
  chunk_based_on_seq_len 5 ["a b"; "c"; "d e"] = []
  /\ prev_chunk_based_on_token_seq_len (word_chunker 5 false 1)
       ["a b"; "c"; "d e"] = Ok [].
Proof.
  pose proof (never_over_budget_no_chunks (word_chunker 5 false 1) 5
                ["a b"; "c"; "d e"]) as [Hw Ht].
  split.
  - apply Hw. intros [|[|[|[|n]]]] Hn; simpl in Hn; try lia; vm_compute; congruence.
  - apply Ht. intros [|[|[|[|n]]]] Hn; simpl in Hn; try lia; vm_compute; congruence.
Defined.

(** ** Slices of [np.array_split] *)

Section ArraySplit.

Context {A : Type}.

Lemma chop_length (sizes : list nat) (l : list A) :
  List.length (chop sizes l) = List.length sizes.
Proof.
  revert l. induction sizes as [|n sizes IH]; intros l; simpl; auto.
Qed.

Lemma chop_concat (sizes : list nat) (l : list A) :
  list_sum sizes = List.length l -> List.concat (chop sizes l) = l.
Proof.
  revert l.
  induction sizes as [|n sizes IH]; intros l Hsum; simpl in *.
  - symmetry in Hsum. now apply length_zero_iff_nil in Hsum.
  - rewrite IH; [apply firstn_skipn|].
    rewrite length_skipn. lia.
Qed.

Lemma chop_sizes (sizes : list nat) (l : list A) :
  (list_sum sizes <= List.length l)%nat ->
  map (@List.length A) (chop sizes l) = sizes.
Proof.
  revert l.
  induction sizes as [|n sizes IH]; intros l Hsum; simpl in *; [reflexivity|].
  rewrite IH by (rewrite length_skipn; lia).
  rewrite length_firstn. f_equal. lia.
Qed.

Lemma slices_chop (ary : list A) (sizes : list Z) (off : Z) :
  0 <= off -> Forall (fun x => 0 <= x) sizes ->
  map (fun i => slice ary (nth i (off :: cumsum off sizes) 0)
                      (nth (S i) (off :: cumsum off sizes) 0))
      (seq 0 (List.length sizes)) =
  chop (map Z.to_nat sizes) (skipn (Z.to_nat off) ary).
Proof.
  intros Hoff Hsizes. revert off Hoff.
  induction Hsizes as [|x sizes Hx _ IH]; intros off Hoff; [reflexivity|].
  cbn [List.length seq map chop cumsum]. f_equal.
  - unfold slice. cbn [nth]. f_equal. f_equal. lia.
  - rewrite <- seq_shift, map_map.
    rewrite skipn_skipn, <- Z2Nat.inj_add, (Z.add_comm x off) by lia.
    rewrite <- (IH (off + x)) by lia.
    apply map_ext. intros i. reflexivity.
Qed.

End ArraySplit.

Lemma list_sum_repeat (n k : nat) : list_sum (repeat n k) = (k * n)%nat.
Proof. induction k as [|k IH]; simpl; lia. Qed.

(** The sizes numpy gives to the sections: [extras] sections of
    [Neach_section + 1] elements, then sections of [Neach_section]. *)
Lemma split_sections_chop {A : Type} (ary : list A) (Nsections : Z) :
  0 < Nsections ->
  split_sections ary Nsections =
  Ok (chop (repeat (Z.to_nat (len ary / Nsections + 1))
                   (Z.to_nat (len ary mod Nsections))
            ++ repeat (Z.to_nat (len ary / Nsections))
                      (Z.to_nat (Nsections - len ary mod Nsections)))
           ary).
Proof.
  intros Hk. unfold split_sections.
  destruct (Z.leb_spec Nsections 0) as [H|_]; [lia|].
  assert (Hlen : 0 <= len ary) by (unfold len; lia).
  pose proof (Z.mod_pos_bound (len ary) Nsections Hk) as Hr.
  pose proof (Z.div_pos (len ary) Nsections Hlen Hk) as Hq.
  set (q := len ary / Nsections) in *.
  set (r := len ary mod Nsections) in *.
  f_equal.
  set (sizes := repeat (q + 1) (Z.to_nat r) ++ repeat q (Z.to_nat (Nsections - r))).
  assert (Hn : Z.to_nat Nsections = List.length sizes).
  { unfold sizes. rewrite length_app, !repeat_length. lia. }
  change (cumsum 0 ([0] ++ sizes)) with (0 :: cumsum 0 sizes).
  rewrite Hn, slices_chop.
  - unfold sizes. now rewrite map_app, !map_repeat.
  - lia.
  - unfold sizes. apply Forall_app. split; apply Forall_forall;
      intros x Hx; apply repeat_spec in Hx; lia.
Qed.

Lemma split_sections_partition {A : Type} (ary : list A) (Nsections : Z) :
  0 < Nsections ->
  exists slices,
    split_sections ary Nsections = Ok slices
    /\ len slices = Nsections
    /\ List.concat slices = ary
    /\ Forall (fun sl => len ary / Nsections <= len sl
                         <= len ary / Nsections + 1) slices.
Proof.
  intros Hk. rewrite (split_sections_chop ary Nsections Hk).
  assert (Hlen : 0 <= len ary) by (unfold len; lia).
  pose proof (Z.mod_pos_bound (len ary) Nsections Hk) as Hr.
  pose proof (Z.div_pos (len ary) Nsections Hlen Hk) as Hq.
  pose proof (Z.div_mod (len ary) Nsections ltac:(lia)) as Hdm.
  set (q := len ary / Nsections) in *.
  set (r := len ary mod Nsections) in *.
  set (sizes := repeat (Z.to_nat (q + 1)) (Z.to_nat r)
                ++ repeat (Z.to_nat q) (Z.to_nat (Nsections - r))).
  assert (Hsum : list_sum sizes = List.length ary).
  { unfold sizes. rewrite list_sum_app, !list_sum_repeat.
    unfold len in *. nia. }
  eexists. split; [reflexivity|]. repeat split.
  - unfold len. rewrite chop_length. unfold sizes.
    rewrite length_app, !repeat_length. lia.
  - now apply chop_concat.
  - pose proof (chop_sizes sizes ary ltac:(lia)) as Hs.
    apply Forall_forall. intros sl Hin.
    apply (in_map (@List.length A)) in Hin. rewrite Hs in Hin.
    unfold sizes in Hin. apply in_app_or in Hin.
    unfold len.
    destruct Hin as [Hin|Hin]; apply repeat_spec in Hin; rewrite Hin; lia.
Qed.

(** ** The parallel strategy *)

Lemma map_each_ok {X Y : Type} (f : X -> result Y) (xs : list X) (ys : list Y) :
  Forall2 (fun x y => f x = Ok y) xs ys -> map_each f xs = Ok ys.
Proof.
  induction 1 as [|x y xs ys Hxy _ IH]; simpl; [reflexivity|].
  now rewrite Hxy, IH.
Qed.

Lemma map_each_raise {X Y : Type} (f : X -> result Y) (xs : list X)
      (x : X) (e : exn) :
  In x xs -> f x = Raise e -> exists e', map_each f xs = Raise e'.
Proof.
  intros Hin Hx.
  induction xs as [|x0 xs IH]; simpl in *; [contradiction|].
  destruct (f x0) as [y|e0] eqn:E0; simpl; [|now exists e0].
  destruct Hin as [->|Hin]; [congruence|].
  destruct (IH Hin) as [e' ->]. now exists e'.
Qed.

(** ** Chunks of the word-count strategy *)

(** The chunks of the word-count strategy are made of consecutive,
    non-empty and pairwise disjoint runs of sentences that cover the input
    up to the sentences left in the accumulator. *)
Lemma seq_len_chunks_are_segments (seq_len : Z) (sent_list : list string) :
  exists segs rest,
    sent_list = List.concat segs ++ rest
    /\ Forall (fun seg => seg <> []) segs
    /\ SeqLen.run seq_len sent_list SeqLen.init =
       {| SeqLen.temp_new_chunk_list := map chunk_of segs;
          SeqLen.temp_sent := accumulate "" rest |}.
Proof.
  induction sent_list as [|sent l IH] using rev_ind.
  - exists [], []. repeat split. constructor.
  - destruct IH as (segs & rest & Hl & Hne & Hrun).
    unfold SeqLen.run in *. rewrite fold_left_app, Hrun. cbn [fold_left].
    unfold SeqLen.body. cbn [SeqLen.temp_sent SeqLen.temp_new_chunk_list].
    rewrite <- accumulate_snoc.
    destruct (len (split (accumulate "" (rest ++ [sent]))) >? seq_len).
    + exists (segs ++ [rest ++ [sent]]), []. repeat split.
      * rewrite concat_app. simpl. rewrite !app_nil_r, Hl. now rewrite app_assoc.
      * apply Forall_app. split; [exact Hne|].
        constructor; [|constructor]. now destruct rest.
      * now rewrite map_app.
    + exists segs, (rest ++ [sent]). repeat split.
      * now rewrite Hl, app_assoc.
      * exact Hne.
Qed.

Lemma seq_len_chunks_disjoint (seq_len : Z) (sent_list : list string) :
  exists segs rest,
    sent_list = List.concat segs ++ rest
    /\ chunk_based_on_seq_len seq_len sent_list = map chunk_of segs.
Proof.
  destruct (seq_len_chunks_are_segments seq_len sent_list)
    as (segs & rest & Hl & _ & Hrun).
  exists segs, rest. split; [exact Hl|].
  unfold chunk_based_on_seq_len. now rewrite Hrun.
Qed.

(** ** Overflow steps of the tokenizer-budget strategy *)

(** After any iteration, either the accumulator was just reset or the last
    snapshot of the history is the accumulator, stripped. *)
Lemma token_body_history (self : Chunker) (st st' : TokenSeqLen.state)
      (sent : string) :
  TokenSeqLen.body self st sent = Ok st' ->
  TokenSeqLen.temp_sent st' = ""
  \/ exists h, TokenSeqLen.temp_sent_list st' =
               h ++ [strip (TokenSeqLen.temp_sent st')].
Proof.
  unfold TokenSeqLen.body. rewrite getitem_last. cbn [bind].
  destruct (_ >? _).
  - destruct (getitem _ (-2)); cbn [bind]; [|discriminate].
    intros [= <-]. now left.
  - intros [= <-]. right. now eexists.
Qed.

Lemma token_run_history (self : Chunker) (prefix : list string)
      (st : TokenSeqLen.state) :
  TokenSeqLen.run self prefix TokenSeqLen.init = Ok st ->
  TokenSeqLen.temp_sent st = ""
  \/ exists h, TokenSeqLen.temp_sent_list st =
               h ++ [strip (TokenSeqLen.temp_sent st)].
Proof.
  destruct prefix as [|sent prefix _] using rev_ind.
  - intros [= <-]. now left.
  - unfold TokenSeqLen.run. rewrite for_each_app.
    destruct (for_each _ prefix _) as [st0|]; cbn [bind for_each]; [|discriminate].
    destruct (TokenSeqLen.body self st0 sent) as [st1|] eqn:Hb; cbn [bind];
      [|discriminate].
    intros [= <-]. exact (token_body_history _ _ _ _ Hb).
Qed.

(** An overflow that finds sentences in the accumulator emits them, without
    the sentence that overflowed, and resets the accumulator. *)
Lemma token_overflow_emits_accumulator (self : Chunker) (prefix : list string)
      (st : TokenSeqLen.state) (sent : string) :
  TokenSeqLen.run self prefix TokenSeqLen.init = Ok st ->
  TokenSeqLen.temp_sent st <> "" ->
  len (tokenize self (strip (TokenSeqLen.temp_sent st ++ " " ++ sent)))
  > token_seq_length self ->
  TokenSeqLen.body self st sent =
  Ok {| TokenSeqLen.temp_new_chunk_list :=
          TokenSeqLen.temp_new_chunk_list st
          ++ [strip (TokenSeqLen.temp_sent st)];
        TokenSeqLen.temp_sent := "";
        TokenSeqLen.temp_sent_list :=
          TokenSeqLen.temp_sent_list st
          ++ [strip (TokenSeqLen.temp_sent st ++ " " ++ sent)] |}.
Proof.
  intros Hrun Hne Hover.
  destruct (token_run_history _ _ _ Hrun) as [He|[h Hh]]; [contradiction|].
  unfold TokenSeqLen.body. rewrite getitem_last. cbn [bind].
  apply Z.gtb_gt in Hover. rewrite Hover.
  rewrite Hh at 1. rewrite getitem_before_last. reflexivity.
Qed.

(** An overflow on an accumulator that was just reset emits the last
    snapshot of the history, which belongs to the chunk before. *)
Lemma token_overflow_emits_stale (self : Chunker) (st : TokenSeqLen.state)
      (h : list string) (snapshot sent : string) :
  TokenSeqLen.temp_sent st = "" ->
  TokenSeqLen.temp_sent_list st = h ++ [snapshot] ->
  len (tokenize self (strip sent)) > token_seq_length self ->
  TokenSeqLen.body self st sent =
  Ok {| TokenSeqLen.temp_new_chunk_list :=
          TokenSeqLen.temp_new_chunk_list st ++ [snapshot];
        TokenSeqLen.temp_sent := "";
        TokenSeqLen.temp_sent_list :=
          TokenSeqLen.temp_sent_list st ++ [strip sent] |}.
Proof.
  intros He Hh Hover.
  unfold TokenSeqLen.body. rewrite getitem_last. cbn [bind].
  rewrite He. change ("" ++ " " ++ sent)%string with (" " ++ sent)%string.
  rewrite strip_leading_space.
  apply Z.gtb_gt in Hover. rewrite Hover.
  rewrite Hh at 1. rewrite getitem_before_last. reflexivity.
Qed.

(** C1: an overflow right after a reset.  With a budget of one token and
    the sentences [a], [b], [c d], the second iteration emits [a] and
    resets; the third finds the accumulator empty, overflows on [c d] alone
    and emits the snapshot [a b] of the second iteration, not the
    accumulator as it was before [c d] was appended. *)
Theorem overflow_after_reset_emits_stale_snapshot :
  exists st st',
    TokenSeqLen.run (word_chunker 1 false 1) ["a"; "b"] TokenSeqLen.init = Ok st
    /\ TokenSeqLen.temp_new_chunk_list st = ["a"]
    /\ TokenSeqLen.temp_sent st = ""
    /\ TokenSeqLen.temp_sent_list st = ["a"; "a b"]
    /\ len (tokenize (word_chunker 1 false 1)
              (strip (TokenSeqLen.temp_sent st ++ " " ++ "c d")))
       > token_seq_length (word_chunker 1 false 1)
    /\ TokenSeqLen.body (word_chunker 1 false 1) st "c d" = Ok st'
    /\ TokenSeqLen.temp_new_chunk_list st' = ["a"; "a b"]
    /\ TokenSeqLen.temp_sent st' = ""
    /\ strip (TokenSeqLen.temp_sent st) = "".
Proof.
  do 2 eexists. repeat split.
Qed.

(** The chunks [a], [a b] cannot be cut out of [a], [b], [c d] as
    consecutive disjoint runs of sentences. *)
Lemma three_sentences_not_segments (segs : list (list string))
      (rest : list string) :
  ["a"; "b"; "c d"] = List.concat segs ++ rest ->
  map chunk_of segs = ["a"; "a b"] -> False.
Proof.
  intros Hl Hc.
  destruct segs as [|s1 [|s2 [|s3 segs]]]; try discriminate.
  injection Hc as H1 H2. cbn [List.concat] in Hl. rewrite app_nil_r in Hl.
  destruct s1 as [|x1 [|x2 [|x3 [|x4 s1]]]]; simpl in Hl;
    try discriminate; injection Hl as; subst; try discriminate.
  all: destruct s2 as [|y1 [|y2 [|y3 s2]]]; simpl in *;
    try discriminate; try (injection H as; subst; discriminate).
  all: match goal with H : _ :: _ = _ |- _ => injection H as; subst end;
    discriminate.
Qed.

(** C2: the first sentence in two chunks.  With a budget of one token the
    tokenizer-budget strategy returns [a] and then [a b] on the sentences
    [a], [b], [c d], alone or followed by seven more: the sentence [a] is in
    both chunks, and no cutting of the input into consecutive disjoint runs
    gives these chunks. *)
Theorem token_strategy_repeats_sentence :
  prev_chunk_based_on_token_seq_len (word_chunker 1 false 1)
    ["a"; "b"; "c d"; "e"; "f"; "g"; "h"; "i"; "j"; "k"] =
  Ok ["a"; "a b"; "e"; "g"; "i"]
  /\ chunker_function_ (word_chunker 1 false 1)
       ["a"; "b"; "c d"; "e"; "f"; "g"; "h"; "i"; "j"; "k"] =
     Ok (Chunks ["a"; "a b"; "e"; "g"; "i"])
  /\ In "a" (split "a") /\ In "a" (split "a b")
  /\ prev_chunk_based_on_token_seq_len (word_chunker 1 false 1)
       ["a"; "b"; "c d"] = Ok ["a"; "a b"]
  /\ (forall segs rest,
         ["a"; "b"; "c d"] = List.concat segs ++ rest ->
         map chunk_of segs <> ["a"; "a b"]).
Proof.
  repeat split; try (vm_compute; auto; fail).
  intros segs rest Hl Hc. exact (three_sentences_not_segments segs rest Hl Hc).
Qed.


(** * Further properties *)

(** ** Words under [split], [strip] and [join] *)

Lemma string_app_assoc (a b c : string) :
  ((a ++ b) ++ c)%string = (a ++ b ++ c)%string.
Proof. induction a as [|x a IH]; simpl; [reflexivity | now rewrite IH]. Qed.

Lemma split_from_separator (w a b : string) (c : ascii) :
  isspace c = true ->
  split_from w (a ++ String c b) = split_from w a ++ split_from "" b.
Proof.
  intros Hc. revert w.
  induction a as [|x a IH]; intros w; simpl.
  - rewrite Hc. now destruct (is_empty w).
  - destruct (isspace x); [destruct (is_empty w)|]; simpl; now rewrite IH.
Qed.

Lemma split_app_space (a b : string) :
  split (a ++ " " ++ b) = split a ++ split b.
Proof. apply split_from_separator. reflexivity. Qed.

Lemma split_lstrip (s : string) : split (lstrip s) = split s.
Proof.
  unfold split.
  induction s as [|c s IH]; simpl; [reflexivity|].
  destruct (isspace c) eqn:Hc; simpl; [exact IH | now rewrite Hc].
Qed.

Lemma rstrip_empty_split (s w : string) :
  is_empty (rstrip s) = true ->
  split_from w s = if is_empty w then [] else [w].
Proof.
  revert w.
  induction s as [|c s IH]; intros w; simpl; [reflexivity|].
  destruct (isspace c); simpl; [|discriminate].
  destruct (is_empty (rstrip s)) eqn:He; simpl; [|discriminate].
  intros _. rewrite (IH "" eq_refl). reflexivity.
Qed.

Lemma split_from_rstrip (s w : string) :
  split_from w (rstrip s) = split_from w s.
Proof.
  revert w.
  induction s as [|c s IH]; intros w; simpl; [reflexivity|].
  destruct (isspace c) eqn:Hc; simpl.
  - destruct (is_empty (rstrip s)) eqn:He; simpl.
    + rewrite (rstrip_empty_split s "" He). reflexivity.
    + rewrite Hc. now rewrite !IH.
  - rewrite Hc. apply IH.
Qed.

Lemma split_strip (s : string) : split (strip s) = split s.
Proof.
  unfold strip, split. rewrite split_from_rstrip. apply split_lstrip.
Qed.

Lemma split_accumulate (temp : string) (sents : list string) :
  split (accumulate temp sents) = split temp ++ words sents.
Proof.
  revert temp.
  induction sents as [|sent sents IH]; intros temp.
  - simpl. now rewrite app_nil_r.
  - change (accumulate temp (sent :: sents))
      with (accumulate (temp ++ " " ++ sent) sents).
    rewrite IH, split_app_space. unfold words. simpl.
    now rewrite app_assoc.
Qed.

Lemma split_chunk_of (seg : list string) : split (chunk_of seg) = words seg.
Proof. unfold chunk_of. now rewrite split_strip, split_accumulate. Qed.

Lemma words_app (l1 l2 : list string) : words (l1 ++ l2) = words l1 ++ words l2.
Proof. unfold words. now rewrite map_app, concat_app. Qed.

Lemma words_concat (segs : list (list string)) :
  words (List.concat segs) = List.concat (map words segs).
Proof.
  induction segs as [|seg segs IH]; simpl; [reflexivity|].
  now rewrite words_app, IH.
Qed.

Lemma accumulate_join (temp : string) (seg : list string) :
  seg <> [] -> accumulate temp seg = (temp ++ " " ++ join " " seg)%string.
Proof.
  revert temp.
  induction seg as [|x seg IH]; intros temp Hne; [contradiction|].
  destruct seg as [|y seg]; [reflexivity|].
  change (accumulate temp (x :: y :: seg))
    with (accumulate (temp ++ " " ++ x) (y :: seg)).
  rewrite IH by discriminate.
  change (join " " (x :: y :: seg)) with (x ++ " " ++ join " " (y :: seg))%string.
  rewrite string_app_assoc. reflexivity.
Qed.

Lemma chunk_of_join (seg : list string) : chunk_of seg = strip (join " " seg).
Proof.
  destruct seg as [|x seg]; [reflexivity|].
  unfold chunk_of. rewrite accumulate_join by discriminate.
  reflexivity.
Qed.

Lemma split_join (l : list string) : split (join " " l) = words l.
Proof.
  rewrite <- split_strip, <- chunk_of_join. apply split_chunk_of.
Qed.

(** ** The word-count strategy: what a chunk holds *)

Lemma seq_len_segments_over (seq_len : Z) (sent_list : list string) :
  exists segs rest,
    sent_list = List.concat segs ++ rest
    /\ SeqLen.run seq_len sent_list SeqLen.init =
       {| SeqLen.temp_new_chunk_list := map chunk_of segs;
          SeqLen.temp_sent := accumulate "" rest |}
    /\ Forall (fun seg =>
                 exists init last,
                   seg = init ++ [last]
                   /\ (init <> [] -> len (words init) <= seq_len)
                   /\ seq_len < len (words seg)) segs
    /\ (rest <> [] -> len (words rest) <= seq_len).
Proof.
  induction sent_list as [|sent l IH] using rev_ind.
  - exists [], []. repeat split; [constructor | intros H; now destruct H].
  - destruct IH as (segs & rest & Hl & Hrun & Hsegs & Hrest).
    unfold SeqLen.run in *. rewrite fold_left_app, Hrun. cbn [fold_left].
    unfold SeqLen.body. cbn [SeqLen.temp_sent SeqLen.temp_new_chunk_list].
    rewrite <- accumulate_snoc.
    destruct (Z.gtb_spec (len (split (accumulate "" (rest ++ [sent])))) seq_len)
      as [Hgt|Hle]; rewrite split_accumulate in *; cbn [split split_from is_empty app] in *.
    + exists (segs ++ [rest ++ [sent]]), []. repeat split.
      * rewrite concat_app. simpl. rewrite !app_nil_r, Hl. now rewrite app_assoc.
      * now rewrite map_app.
      * apply Forall_app. split; [exact Hsegs|].
        constructor; [|constructor]. exists rest, sent. auto.
      * intros H; now destruct H.
    + exists segs, (rest ++ [sent]). repeat split.
      * now rewrite Hl, app_assoc.
      * exact Hsegs.
      * intros _. exact Hle.
Qed.

Lemma len_nonneg {A : Type} (l : list A) : 0 <= len l.
Proof. unfold len. lia. Qed.

(** X1: every chunk of the word-count strategy has more than [seq_length]
    words. *)
Theorem seq_len_chunks_exceed_budget (seq_len : Z) (sent_list : list string) :
  Forall (fun chunk => seq_len < len (split chunk))
         (chunk_based_on_seq_len seq_len sent_list).
Proof.
  destruct (seq_len_segments_over seq_len sent_list)
    as (segs & rest & _ & Hrun & Hsegs & _).
  unfold chunk_based_on_seq_len. rewrite Hrun. cbn [SeqLen.temp_new_chunk_list].
  apply Forall_map. eapply Forall_impl; [|exact Hsegs].
  intros seg (init & last & _ & _ & Hover). now rewrite split_chunk_of.
Qed.

(** X2: for a budget that is not negative, every chunk of the word-count
    strategy is made of a run of consecutive sentences that stays within
    [seq_length] words until its last sentence: the chunk has at most
    [seq_length] words more than that last sentence has. *)
Theorem seq_len_chunk_bound (seq_len : Z) (sent_list : list string)
        (Hbudget : 0 <= seq_len) :
  exists segs rest,
    sent_list = List.concat segs ++ rest
    /\ chunk_based_on_seq_len seq_len sent_list = map chunk_of segs
    /\ Forall (fun seg =>
                 over_by_last seq_len seg
                 /\ forall init last,
                     seg = init ++ [last] ->
                     len (split (chunk_of init)) <= seq_len
                     /\ len (split (chunk_of seg))
                        <= seq_len + len (split last)) segs.
Proof.
  destruct (seq_len_segments_over seq_len sent_list)
    as (segs & rest & Hl & Hrun & Hsegs & _).
  exists segs, rest. split; [exact Hl|]. split.
  - unfold chunk_based_on_seq_len. now rewrite Hrun.
  - eapply Forall_impl; [|exact Hsegs].
    intros seg (init & last & Hseg & Hinit & Hover).
    assert (Hi : len (words init) <= seq_len).
    { destruct init as [|x init]; [exact Hbudget | apply Hinit; discriminate]. }
    split; [now exists init, last|].
    intros init' last' Hseg'. rewrite Hseg in Hseg'.
    apply app_inj_tail in Hseg' as [<- <-].
    rewrite !split_chunk_of. split; [exact Hi|].
    rewrite Hseg, words_app, len_app. unfold words at 2. simpl.
    rewrite app_nil_r. lia.
Qed.

(** Budget two: the chunks hold four, three and three words. *)
Lemma seq_len_chunk_bound_two :
  0 <= 2
  /\ exists segs rest,
      ["a"; "b"; "c d"; "e"; "f"; "g"; "h"; "i"; "j"; "k"]
      = List.concat segs ++ rest
      /\ chunk_based_on_seq_len 2
           ["a"; "b"; "c d"; "e"; "f"; "g"; "h"; "i"; "j"; "k"]
         = map chunk_of segs.
Proof.
  split; [lia|].
  destruct (seq_len_chunk_bound 2
              ["a"; "b"; "c d"; "e"; "f"; "g"; "h"; "i"; "j"; "k"]
              ltac:(lia)) as (segs & rest & Hl & Hc & _).
  now exists segs, rest.
Defined.

(** X3: the word-count strategy neither loses nor reorders a word: the
    words of the chunks, followed by the words still in the accumulator when
    the loop ends, are the words of the input. *)
Theorem seq_len_words_conserved (seq_len : Z) (sent_list : list string) :
  List.concat (map split (chunk_based_on_seq_len seq_len sent_list))
  ++ split (SeqLen.temp_sent (SeqLen.run seq_len sent_list SeqLen.init))
  = words sent_list.
Proof.
  destruct (seq_len_segments_over seq_len sent_list)
    as (segs & rest & Hl & Hrun & _ & _).
  unfold chunk_based_on_seq_len. rewrite Hrun.
  cbn [SeqLen.temp_new_chunk_list SeqLen.temp_sent].
  rewrite split_accumulate, map_map. cbn [split split_from is_empty app].
  rewrite (map_ext _ words) by apply split_chunk_of.
  now rewrite <- words_concat, <- words_app, <- Hl.
Qed.

Lemma seq_len_run_negative (seq_len : Z) (sent_list chunks : list string) :
  seq_len < 0 ->
  SeqLen.run seq_len sent_list
    {| SeqLen.temp_new_chunk_list := chunks; SeqLen.temp_sent := "" |} =
  {| SeqLen.temp_new_chunk_list := chunks ++ map strip sent_list;
     SeqLen.temp_sent := "" |}.
Proof.
  intros Hneg. revert chunks.
  induction sent_list as [|sent l IH]; intros chunks; simpl.
  - now rewrite app_nil_r.
  - unfold SeqLen.run in *. unfold SeqLen.body at 2.
    cbn [SeqLen.temp_sent SeqLen.temp_new_chunk_list].
    pose proof (len_nonneg (split ("" ++ " " ++ sent))) as Hn.
    destruct (Z.gtb_spec (len (split ("" ++ " " ++ sent))) seq_len); [|lia].
    rewrite IH, <- app_assoc. reflexivity.
Qed.

(** X5: with a negative [seq_length] the word-count strategy makes a chunk
    of every sentence, stripped, and leaves nothing in the accumulator. *)
Theorem seq_len_negative_budget (seq_len : Z) (sent_list : list string)
        (Hneg : seq_len < 0) :
  chunk_based_on_seq_len seq_len sent_list = map strip sent_list
  /\ SeqLen.temp_sent (SeqLen.run seq_len sent_list SeqLen.init) = "".
Proof.
  unfold chunk_based_on_seq_len, SeqLen.init.
  now rewrite (seq_len_run_negative seq_len sent_list [] Hneg).
Qed.

Lemma seq_len_negative_budget_example :
  -1 < 0
  /\ chunk_based_on_seq_len (-1) [" hej du "; ""; "ord"] = ["hej du"; ""; "ord"].
Proof.
  split; [lia|].
  exact (proj1 (seq_len_negative_budget (-1) [" hej du "; ""; "ord"] eq_refl)).
Defined.


(** ** The tokenizer-budget strategy: when it raises, what it emits *)

Lemma getitem_In {A : Type} (l : list A) (i : Z) (x : A) :
  getitem l i = Ok x -> In x l.
Proof.
  unfold getitem. cbv zeta.
  destruct (_ <? 0); [discriminate|].
  destruct (nth_error l _) as [a|] eqn:E; [|discriminate].
  intros [= <-]. eapply nth_error_In, E.
Qed.

Lemma token_body_init (self : Chunker) (sent : string) :
  TokenSeqLen.body self TokenSeqLen.init sent =
  if len (tokenize self (strip sent)) >? token_seq_length self
  then Raise IndexError
  else Ok {| TokenSeqLen.temp_new_chunk_list := [];
             TokenSeqLen.temp_sent := (" " ++ sent)%string;
             TokenSeqLen.temp_sent_list := [strip sent] |}.
Proof.
  unfold TokenSeqLen.body.
  cbn [TokenSeqLen.temp_sent TokenSeqLen.temp_sent_list TokenSeqLen.init
       TokenSeqLen.temp_new_chunk_list].
  rewrite getitem_last. cbn [bind].
  change ("" ++ " " ++ sent)%string with (" " ++ sent)%string.
  rewrite strip_leading_space.
  destruct (_ >? _); reflexivity.
Qed.

Lemma token_body_from_history (self : Chunker) (st : TokenSeqLen.state)
      (sent : string) :
  TokenSeqLen.temp_sent_list st <> [] ->
  exists st', TokenSeqLen.body self st sent = Ok st'
              /\ TokenSeqLen.temp_sent_list st' <> [].
Proof.
  intros Hne.
  destruct (exists_last Hne) as (h & y & Hh).
  assert (Hg : forall x, getitem (TokenSeqLen.temp_sent_list st ++ [x]) (-2)
                         = Ok y)
    by (intros x; rewrite Hh; apply getitem_before_last).
  unfold TokenSeqLen.body. rewrite getitem_last, Hg. cbn [bind].
  destruct (_ >? _); eexists; (split; [reflexivity|]);
    cbn [TokenSeqLen.temp_sent_list]; intros H;
    now apply app_eq_nil in H as [_ H].
Qed.

Lemma token_run_from_history (self : Chunker) (sent_list : list string)
      (st : TokenSeqLen.state) :
  TokenSeqLen.temp_sent_list st <> [] ->
  exists st', TokenSeqLen.run self sent_list st = Ok st'.
Proof.
  revert st.
  induction sent_list as [|sent l IH]; intros st Hne.
  - now exists st.
  - destruct (token_body_from_history self st sent Hne) as (st1 & Hb & Hne1).
    unfold TokenSeqLen.run in *. cbn [for_each]. rewrite Hb. cbn [bind].
    now apply IH.
Qed.

(** X6: the tokenizer-budget strategy raises exactly when the first
    sentence, stripped, has more tokens than [token_seq_length], and then
    [IndexError]; on every other input, the empty list included, it returns a
    list of chunks. *)
Theorem prev_chunk_outcome (self : Chunker) (sent_list : list string) :
  match sent_list with
  | [] => prev_chunk_based_on_token_seq_len self sent_list = Ok []
  | sent :: _ =>
      if len (tokenize self (strip sent)) >? token_seq_length self
      then prev_chunk_based_on_token_seq_len self sent_list = Raise IndexError
      else exists chunks,
          prev_chunk_based_on_token_seq_len self sent_list = Ok chunks
  end.
Proof.
  destruct sent_list as [|sent rest]; [reflexivity|].
  unfold prev_chunk_based_on_token_seq_len, TokenSeqLen.run.
  cbn [for_each]. rewrite token_body_init.
  destruct (_ >? _); [reflexivity|]. cbn [bind].
  edestruct (token_run_from_history self rest) as [st' Hst'];
    [|unfold TokenSeqLen.run in Hst'; rewrite Hst'; cbn [bind]; now eexists].
  discriminate.
Qed.

Lemma run_of_snoc (sent_list : list string) (sent chunk : string) :
  run_of sent_list chunk -> run_of (sent_list ++ [sent]) chunk.
Proof.
  intros (pre & seg & post & Hl & Hne & Hc).
  exists pre, seg, (post ++ [sent]). repeat split; auto.
  now rewrite Hl, <- !app_assoc.
Qed.

Lemma chunk_of_snoc (cur : list string) (sent : string) :
  strip (accumulate "" cur ++ " " ++ sent) = chunk_of (cur ++ [sent]).
Proof. unfold chunk_of. now rewrite accumulate_snoc. Qed.

(** What holds of the state after the sentences [prefix]: the accumulator
    holds the last sentences, every snapshot and every chunk is a run of
    consecutive sentences, the history has one snapshot for each sentence, and
    there are fewer chunks than sentences. *)
Lemma token_run_invariant (self : Chunker) (prefix : list string)
      (st : TokenSeqLen.state) :
  TokenSeqLen.run self prefix TokenSeqLen.init = Ok st ->
  (exists done cur,
      prefix = done ++ cur
      /\ TokenSeqLen.temp_sent st = accumulate "" cur)
  /\ Forall (run_of prefix) (TokenSeqLen.temp_sent_list st)
  /\ Forall (run_of prefix) (TokenSeqLen.temp_new_chunk_list st)
  /\ List.length (TokenSeqLen.temp_sent_list st) = List.length prefix
  /\ (List.length (TokenSeqLen.temp_new_chunk_list st)
      <= List.length prefix - 1)%nat.
Proof.
  revert st.
  induction prefix as [|sent p IH] using rev_ind; intros st.
  - intros [= <-]. cbn. repeat split; try constructor.
    exists [], []. now split.
  - unfold TokenSeqLen.run in *. rewrite for_each_app.
    destruct (for_each _ p _) as [st0|]; cbn [bind for_each]; [|discriminate].
    destruct (IH st0 eq_refl) as ((done & cur & Hp & Hacc) & Hhist & Hchunks & Hlen & Hcount).
    destruct (TokenSeqLen.body self st0 sent) as [st1|] eqn:Hb; cbn [bind];
      [|discriminate].
    intros [= <-].
    assert (Hsnap : run_of (p ++ [sent])
                      (strip (TokenSeqLen.temp_sent st0 ++ " " ++ sent))).
    { rewrite Hacc, chunk_of_snoc. exists done, (cur ++ [sent]), [].
      repeat split.
      - now rewrite app_nil_r, Hp, app_assoc.
      - now destruct cur. }
    assert (Hhist' : Forall (run_of (p ++ [sent]))
                       (TokenSeqLen.temp_sent_list st0
                        ++ [strip (TokenSeqLen.temp_sent st0 ++ " " ++ sent)])).
    { apply Forall_app. split; [|now constructor].
      eapply Forall_impl; [|exact Hhist]. intros c. apply run_of_snoc. }
    assert (Hchunks' : Forall (run_of (p ++ [sent]))
                         (TokenSeqLen.temp_new_chunk_list st0)).
    { eapply Forall_impl; [|exact Hchunks]. intros c. apply run_of_snoc. }
    unfold TokenSeqLen.body in Hb. rewrite getitem_last in Hb. cbn [bind] in Hb.
    destruct (_ >? _).
    + destruct (getitem _ (-2)) as [prev|] eqn:Hg; cbn [bind] in Hb; [|discriminate].
      injection Hb as <-.
      cbn [TokenSeqLen.temp_sent TokenSeqLen.temp_sent_list
           TokenSeqLen.temp_new_chunk_list].
      split; [exists (p ++ [sent]), []; split; [now rewrite app_nil_r | reflexivity]|].
      split; [exact Hhist'|]. split.
      * apply Forall_app. split; [exact Hchunks'|]. constructor; [|constructor].
        apply getitem_In in Hg. rewrite Forall_forall in Hhist'. now apply Hhist'.
      * rewrite !length_app. simpl. split; [lia|].
        destruct p as [|x p].
        -- destruct (TokenSeqLen.temp_sent_list st0); [discriminate Hg | discriminate Hlen].
        -- simpl in *. lia.
    + injection Hb as <-.
      cbn [TokenSeqLen.temp_sent TokenSeqLen.temp_sent_list
           TokenSeqLen.temp_new_chunk_list].
      split.
      { exists done, (cur ++ [sent]). split.
        - now rewrite Hp, app_assoc.
        - now rewrite accumulate_snoc, Hacc. }
      split; [exact Hhist'|]. split; [exact Hchunks'|].
      rewrite !length_app. simpl. lia.
Qed.

(** X7: when the tokenizer-budget strategy returns, every chunk is made of
    a non-empty run of consecutive sentences of the input, joined by single
    spaces and stripped, and a non-empty input gives fewer chunks than it
    has sentences. *)
Theorem prev_chunk_chunks_are_runs (self : Chunker)
        (sent_list chunks : list string)
        (Hok : prev_chunk_based_on_token_seq_len self sent_list = Ok chunks) :
  Forall (fun chunk =>
            exists pre seg post,
              sent_list = pre ++ seg ++ post
              /\ seg <> []
              /\ chunk = strip (join " " seg)) chunks
  /\ (sent_list <> [] -> len chunks < len sent_list).
Proof.
  unfold prev_chunk_based_on_token_seq_len in Hok.
  destruct (TokenSeqLen.run self sent_list TokenSeqLen.init) as [st|] eqn:Hrun;
    cbn [bind] in Hok; [|discriminate].
  injection Hok as <-.
  destruct (token_run_invariant self sent_list st Hrun)
    as (_ & _ & Hchunks & _ & Hcount).
  split.
  - eapply Forall_impl; [|exact Hchunks].
    intros c (pre & seg & post & Hl & Hne & Hc).
    exists pre, seg, post. repeat split; auto. now rewrite <- chunk_of_join.
  - intros Hne. unfold len. destruct sent_list; [contradiction|]. simpl in *. lia.
Qed.

Lemma prev_chunk_chunks_are_runs_example :
  prev_chunk_based_on_token_seq_len (word_chunker 2 false 1)
    ["a"; "b"; "c d"; "e"; "f"] = Ok ["a b"]
  /\ len ["a b"] < len ["a"; "b"; "c d"; "e"; "f"].
Proof.
  split; [reflexivity|].
  apply (prev_chunk_chunks_are_runs (word_chunker 2 false 1)
           ["a"; "b"; "c d"; "e"; "f"] ["a b"] eq_refl).
  discriminate.
Defined.

(** ** The tokenizer-budget strategy when no sentence overflows alone *)

Lemma token_run_pieces (self : Chunker) (sent_list : list string) :
  Forall (fun sent => len (tokenize self (strip sent)) <= token_seq_length self)
         sent_list ->
  exists pieces rest history,
    sent_list = List.concat (map piece_sentences pieces) ++ rest
    /\ TokenSeqLen.run self sent_list TokenSeqLen.init =
       Ok {| TokenSeqLen.temp_new_chunk_list :=
               map (fun p => chunk_of (fst p)) pieces;
             TokenSeqLen.temp_sent := accumulate "" rest;
             TokenSeqLen.temp_sent_list := history |}
    /\ Forall (fun p =>
                 fst p <> []
                 /\ len (tokenize self (chunk_of (fst p)))
                    <= token_seq_length self
                 /\ token_seq_length self
                    < len (tokenize self (chunk_of (piece_sentences p))))
              pieces
    /\ (rest <> [] ->
        len (tokenize self (chunk_of rest)) <= token_seq_length self
        /\ exists h, history = h ++ [chunk_of rest]).
Proof.
  induction sent_list as [|sent l IH] using rev_ind; intros Hsingle.
  - exists [], [], []. repeat split; try constructor; now destruct H.
  - apply Forall_app in Hsingle as [Hl Hsent].
    apply Forall_inv in Hsent.
    destruct (IH Hl) as (pieces & rest & history & Hcut & Hrun & Hpieces & Hrest).
    unfold TokenSeqLen.run in *. rewrite for_each_app, Hrun.
    cbn [bind for_each]. unfold TokenSeqLen.body.
    cbn [TokenSeqLen.temp_sent TokenSeqLen.temp_sent_list
         TokenSeqLen.temp_new_chunk_list].
    rewrite getitem_last, chunk_of_snoc. cbn [bind].
    destruct (Z.gtb_spec (len (tokenize self (chunk_of (rest ++ [sent]))))
                         (token_seq_length self)) as [Hover|Hfits].
    + destruct rest as [|r rest'].
      { change (chunk_of ([] ++ [sent])) with (strip sent) in Hover. lia. }
      destruct Hrest as (Hfit & h & Hh); [discriminate|].
      rewrite Hh, getitem_before_last. cbn [bind].
      exists (pieces ++ [(r :: rest', sent)]), [], ((h ++ [chunk_of (r :: rest')])
                                                    ++ [chunk_of ((r :: rest') ++ [sent])]).
      repeat split.
      * rewrite map_app, concat_app. cbn [map List.concat].
        unfold piece_sentences at 2. cbn [fst snd].
        rewrite !app_nil_r, Hcut. now rewrite app_assoc.
      * now rewrite map_app.
      * apply Forall_app. split; [exact Hpieces|].
        constructor; [|constructor]. cbn [fst snd piece_sentences].
        repeat split; [discriminate | exact Hfit | exact Hover].
      * now destruct H.
      * now destruct H.
    + exists pieces, (rest ++ [sent]), (history ++ [chunk_of (rest ++ [sent])]).
      repeat split.
      * now rewrite Hcut, app_assoc.
      * now rewrite accumulate_snoc.
      * exact Hpieces.
      * exact Hfits.
      * now exists history.
Qed.

(** X8: when no sentence of the input has, on its own, more tokens than
    [token_seq_length], the tokenizer-budget strategy returns, and every
    chunk it returns is within the budget. *)
Theorem prev_chunk_within_budget (self : Chunker) (sent_list : list string)
        (Hsingle : Forall (fun sent => len (tokenize self (strip sent))
                                       <= token_seq_length self) sent_list) :
  exists chunks,
    prev_chunk_based_on_token_seq_len self sent_list = Ok chunks
    /\ Forall (fun chunk => len (tokenize self chunk) <= token_seq_length self)
              chunks.
Proof.
  destruct (token_run_pieces self sent_list Hsingle)
    as (pieces & rest & history & _ & Hrun & Hpieces & _).
  unfold prev_chunk_based_on_token_seq_len. rewrite Hrun. cbn [bind].
  eexists. split; [reflexivity|].
  cbn [TokenSeqLen.temp_new_chunk_list].
  apply Forall_map. eapply Forall_impl; [|exact Hpieces].
  now intros p (_ & Hfit & _).
Qed.

Lemma prev_chunk_within_budget_example :
  exists chunks,
    prev_chunk_based_on_token_seq_len (word_chunker 2 false 1)
      ["a"; "b"; "c d"; "e"; "f"] = Ok chunks
    /\ Forall (fun chunk => len (split chunk) <= 2) chunks.
Proof.
  apply (prev_chunk_within_budget (word_chunker 2 false 1)
           ["a"; "b"; "c d"; "e"; "f"]).
  repeat constructor; vm_compute; congruence.
Defined.



(** ** The parallel strategy: one worker, and slices that raise *)

Lemma prev_chunk_first_overflow (self : Chunker) (sent : string)
      (rest : list string) :
  token_seq_length self < len (tokenize self (strip sent)) ->
  prev_chunk_based_on_token_seq_len self (sent :: rest) = Raise IndexError.
Proof.
  intros Hover.
  unfold prev_chunk_based_on_token_seq_len, TokenSeqLen.run.
  cbn [for_each]. rewrite token_body_init.
  destruct (Z.gtb_spec (len (tokenize self (strip sent)))
                       (token_seq_length self)); [reflexivity | lia].
Qed.

Lemma prev_chunk_raises_index (self : Chunker) (sent_list : list string)
      (e : exn) :
  prev_chunk_based_on_token_seq_len self sent_list = Raise e -> e = IndexError.
Proof.
  destruct sent_list as [|sent rest]; [discriminate|].
  unfold prev_chunk_based_on_token_seq_len, TokenSeqLen.run.
  cbn [for_each]. rewrite token_body_init.
  destruct (_ >? _); cbn [bind]; [congruence|].
  edestruct (token_run_from_history self rest) as [st' Hst'];
    [|unfold TokenSeqLen.run in Hst'; rewrite Hst'; discriminate].
  discriminate.
Qed.

Lemma map_each_raises {X Y : Type} (f : X -> result Y) (xs : list X) (e0 : exn) :
  (forall x e, f x = Raise e -> e = e0) ->
  forall e, map_each f xs = Raise e -> e = e0.
Proof.
  intros Hf.
  induction xs as [|x xs IH]; intros e; simpl; [discriminate|].
  destruct (f x) as [y|ex] eqn:Hx; simpl.
  - destruct (map_each f xs) as [ys|exs]; simpl; [discriminate|].
    intros [= <-]. now apply IH.
  - intros [= <-]. eapply Hf, Hx.
Qed.

Lemma split_sections_one {A : Type} (ary : list A) : split_sections ary 1 = Ok [ary].
Proof.
  rewrite split_sections_chop by lia.
  rewrite Z.mod_1_r, Z.div_1_r. cbn [Z.to_nat repeat app].
  change (Z.to_nat (1 - 0)) with 1%nat. cbn [repeat chop].
  unfold len. now rewrite Nat2Z.id, firstn_all.
Qed.

Lemma chop_first {A : Type} (n : nat) (sizes : list nat) (x : A) (l : list A) :
  chop (S n :: sizes) (x :: l) = (x :: firstn n l) :: chop sizes (skipn n l).
Proof. reflexivity. Qed.

Lemma split_sections_first {A : Type} (x : A) (l : list A) (Nsections : Z) :
  0 < Nsections ->
  exists sl others, split_sections (x :: l) Nsections = Ok ((x :: sl) :: others).
Proof.
  intros Hk. rewrite (split_sections_chop (x :: l) Nsections Hk).
  assert (Hlen : 0 < len (x :: l)) by (unfold len; simpl; lia).
  pose proof (Z.mod_pos_bound (len (x :: l)) Nsections Hk) as Hr.
  pose proof (Z.div_pos (len (x :: l)) Nsections ltac:(lia) Hk) as Hq.
  pose proof (Z.div_mod (len (x :: l)) Nsections ltac:(lia)) as Hdm.
  set (q := len (x :: l) / Nsections) in *.
  set (r := len (x :: l) mod Nsections) in *.
  destruct (Z.to_nat r) as [|nr] eqn:Er.
  - assert (r = 0) by lia.
    assert (0 < q) by nia.
    destruct (Z.to_nat (Nsections - r)) as [|nk] eqn:Ek; [lia|].
    destruct (Z.to_nat q) as [|nq] eqn:Eq; [lia|].
    cbn [repeat app]. rewrite chop_first. now eexists _, _.
  - replace (Z.to_nat (q + 1)) with (S (Z.to_nat q)) by lia.
    cbn [repeat app]. rewrite chop_first. now eexists _, _.
Qed.

(** ** The dispatcher: what it returns and when it raises *)

(** X13: [chunker_function_] returns a string exactly for fewer than ten
    sentences, and a list of chunks otherwise; it raises only for ten
    sentences or more on the tokenizer path ([seq_length] unset). *)
Theorem chunker_function_result_kind (self : Chunker) (sent_list : list string) :
  match chunker_function_ self sent_list with
  | Ok (Joined s) => len sent_list < 10 /\ s = join " " sent_list
  | Ok (Chunks _) => 10 <= len sent_list
  | Raise _ => 10 <= len sent_list /\ seq_length self = None
  end.
Proof.
  unfold chunker_function_.
  destruct (Z.ltb_spec (len sent_list) 10) as [Hlt|Hge]; [now split|].
  destruct (seq_length self) as [n|]; [exact Hge|].
  destruct (parallelize self).
  - destruct (parallel_chunker_prev_chunk_based_on_token_seq_len self sent_list);
      cbn [bind]; auto.
  - destruct (prev_chunk_based_on_token_seq_len self sent_list);
      cbn [bind]; auto.
Qed.

(** X14: the string returned for fewer than ten sentences holds the words
    of the sentences, all of them and in order. *)
Theorem chunker_function_small_keeps_words (self : Chunker)
        (sent_list : list string) (Hsmall : len sent_list < 10) :
  exists s,
    chunker_function_ self sent_list = Ok (Joined s)
    /\ split s = List.concat (map split sent_list).
Proof.
  exists (join " " sent_list). split.
  - unfold chunker_function_. now apply Z.ltb_lt in Hsmall as ->.
  - apply split_join.
Qed.

Lemma chunker_function_small_keeps_words_example :
  exists s,
    chunker_function_ (word_chunker 1 false 1) [" hej  du"; ""; "gamle "]
    = Ok (Joined s)
    /\ split s = ["hej"; "du"; "gamle"].
Proof.
  exact (chunker_function_small_keeps_words (word_chunker 1 false 1)
           [" hej  du"; ""; "gamle "] eq_refl).
Defined.

(** ** The filter: shards, order of the passes, exemptions *)

Lemma filter_comm {A : Type} (p q : A -> bool) (l : list A) :
  filter p (filter q l) = filter q (filter p l).
Proof.
  induction l as [|x l IH]; simpl; [reflexivity|].
  destruct (p x) eqn:Hp, (q x) eqn:Hq; simpl; rewrite ?Hp, ?Hq, IH; reflexivity.
Qed.

(** X15: each pass, and [clean_pipe], judges every sentence on its own:
    filtering a list made of two parts gives the filtered first part
    followed by the filtered second part. *)
Theorem clean_pipe_app (self : Word_Cleaner) (l1 l2 : list string) :
  counting_length_of_letters_and_if_to_many_remove self (l1 ++ l2) =
  counting_length_of_letters_and_if_to_many_remove self l1
  ++ counting_length_of_letters_and_if_to_many_remove self l2
  /\ counting_sequence_length_of_numbers self (l1 ++ l2) =
     counting_sequence_length_of_numbers self l1
     ++ counting_sequence_length_of_numbers self l2
  /\ clean_pipe self (l1 ++ l2) = clean_pipe self l1 ++ clean_pipe self l2.
Proof.
  unfold clean_pipe. rewrite !pass_A_filter, !pass_B_filter.
  rewrite !filter_app. auto.
Qed.

(** X16: the two passes commute: the digit filter after the length filter
    keeps the same sentences as the length filter after the digit filter. *)
Theorem passes_commute (self : Word_Cleaner) (sent_list : list string) :
  counting_sequence_length_of_numbers self
    (counting_length_of_letters_and_if_to_many_remove self sent_list) =
  counting_length_of_letters_and_if_to_many_remove self
    (counting_sequence_length_of_numbers self sent_list).
Proof. rewrite !pass_A_filter, !pass_B_filter. apply filter_comm. Qed.

(** X17: [clean_pipe] applied to its own output changes nothing. *)
Theorem clean_pipe_idempotent (self : Word_Cleaner) (sent_list : list string) :
  clean_pipe self (clean_pipe self sent_list) = clean_pipe self sent_list.
Proof.
  unfold clean_pipe. rewrite !pass_A_filter, !pass_B_filter.
  rewrite (filter_comm (pass_A_keeps self) (pass_B_keeps self)
             (filter (pass_A_keeps self) sent_list)).
  now rewrite !filter_idem.
Qed.

(** X18: pass A keeps every sentence that has fewer than
    [short_word_threshold] words, whatever its words are. *)
Theorem short_sentence_exemption (self : Word_Cleaner)
        (sent_list : list string) (sent : string)
        (Hin : In sent sent_list)
        (Hshort : len (split sent) < short_word_threshold self) :
  In sent (counting_length_of_letters_and_if_to_many_remove self sent_list).
Proof.
  rewrite pass_A_filter. apply filter_In. split; [exact Hin|].
  unfold pass_A_keeps. apply Z.ltb_lt in Hshort. rewrite Hshort.
  apply orb_true_r.
Qed.

Lemma short_sentence_exemption_example :
  In "h e j" (counting_length_of_letters_and_if_to_many_remove default_cleaner
                ["h e j h e j h e j"; "h e j"]).
Proof.
  apply (short_sentence_exemption default_cleaner
           ["h e j h e j h e j"; "h e j"] "h e j");
    [simpl; tauto | reflexivity].
Defined.

(** X19: pass B keeps the sentences without a digit, all of them and in
    order, whatever [number_ratio] is. *)
Theorem no_digit_exemption (self : Word_Cleaner) (sent_list : list string) :
  filter (fun sent => negb (_has_numbers sent))
         (counting_sequence_length_of_numbers self sent_list) =
  filter (fun sent => negb (_has_numbers sent)) sent_list.
Proof.
  rewrite pass_B_filter. apply filter_keeps_selected.
  intros sent Hs. unfold pass_B_keeps. now rewrite Hs.
Qed.

Lemma search_digit_app (a b : string) :
  search_digit (a ++ b) = search_digit a || search_digit b.
Proof.
  induction a as [|c a IH]; simpl; [reflexivity|].
  now rewrite IH, orb_assoc.
Qed.

Lemma split_from_digits (s w : string) :
  existsb search_digit (split_from w s) = search_digit w || search_digit s.
Proof.
  revert w.
  induction s as [|c s IH]; intros w; simpl.
  - destruct w; simpl; [reflexivity | now rewrite !orb_false_r].
  - destruct (isspace c) eqn:Hc.
    + rewrite (isspace_not_digit c Hc). simpl.
      destruct w as [|x w]; simpl; rewrite IH; reflexivity.
    + rewrite IH, search_digit_app. simpl.
      now rewrite orb_false_r, orb_assoc.
Qed.



(** X21: unless [number_ratio] is above 100, pass B removes a sentence
    made of one word that holds a digit, and only that sentence. *)
Theorem lone_number_removed (self : Word_Cleaner) (l1 l2 : list string)
        (sent word : string)
        (Hone : split sent = [word])
        (Hdigit : _has_numbers word = true)
        (Hratio : (100 <? number_ratio self)%float = false) :
  counting_sequence_length_of_numbers self (l1 ++ sent :: l2) =
  counting_sequence_length_of_numbers self l1
  ++ counting_sequence_length_of_numbers self l2.
Proof.
  rewrite !pass_B_filter, filter_app. f_equal. simpl.
  assert (Hs : _has_numbers sent = true).
  { change (search_digit sent = true).
    change (search_digit word = true) in Hdigit.
    pose proof (split_from_digits sent "") as H.
    change (split_from "" sent) with (split sent) in H.
    rewrite Hone in H. simpl in H. rewrite Hdigit in H. now rewrite <- H. }
  unfold pass_B_keeps. rewrite Hs, Hone.
  unfold digit_words, not_digit_words. simpl. rewrite Hdigit. simpl.
  replace (to_float (len [word]) / (to_float (len (@nil string)) + 0.01))%float
    with 100%float by (vm_compute; reflexivity).
  now rewrite Hratio.
Qed.

Lemma lone_number_removed_default :
  counting_sequence_length_of_numbers default_cleaner
    ["ord"; " 1905 "; "sida 12 av detta"] = ["ord"; "sida 12 av detta"].
Proof.
  exact (lone_number_removed default_cleaner ["ord"] ["sida 12 av detta"]
           " 1905 " "1905" eq_refl eq_refl eq_refl).
Defined.

(** ** The parallel strategy when no sentence overflows alone *)



(** ** The parallel strategy with no fewer workers than sentences *)

Lemma split_sections_small {A : Type} (ary : list A) (Nsections : Z) :
  0 < Nsections -> len ary <= Nsections ->
  exists slices,
    split_sections ary Nsections = Ok slices
    /\ List.concat slices = ary
    /\ slices <> []
    /\ Forall (fun sl => (List.length sl <= 1)%nat) slices.
Proof.
  intros Hk Hsmall.
  destruct (split_sections_partition ary Nsections Hk)
    as (slices & Hsplit & Hn & Hcat & _).
  exists slices. split; [exact Hsplit|]. split; [exact Hcat|]. split.
  { intros ->. unfold len in Hn. simpl in Hn. lia. }
  rewrite (split_sections_chop ary Nsections Hk) in Hsplit.
  injection Hsplit as <-.
  assert (Hlen : 0 <= len ary) by (unfold len; lia).
  set (sizes := repeat (Z.to_nat (len ary / Nsections + 1))
                       (Z.to_nat (len ary mod Nsections))
                ++ repeat (Z.to_nat (len ary / Nsections))
                          (Z.to_nat (Nsections - len ary mod Nsections))).
  assert (Hsum : list_sum sizes = List.length ary).
  { pose proof (Z.mod_pos_bound (len ary) Nsections Hk).
    pose proof (Z.div_pos (len ary) Nsections Hlen Hk).
    pose proof (Z.div_mod (len ary) Nsections ltac:(lia)).
    unfold sizes. rewrite list_sum_app, !list_sum_repeat. unfold len in *. nia. }
  assert (Hsizes : Forall (fun n => (n <= 1)%nat) sizes).
  { unfold sizes. apply Forall_app.
    destruct (Z.eq_dec (len ary) Nsections) as [He|Hne].
    - rewrite He, Z.div_same, Z_mod_same_full by lia.
      split; [constructor|].
      apply Forall_forall; intros n Hin; apply repeat_spec in Hin; lia.
    - rewrite Z.div_small by lia.
      split; apply Forall_forall; intros n Hin; apply repeat_spec in Hin; lia. }
  rewrite <- (chop_sizes sizes ary) in Hsizes by lia.
  now apply Forall_map in Hsizes.
Qed.

Lemma prev_chunk_single (self : Chunker) (sent : string) :
  prev_chunk_based_on_token_seq_len self [sent] =
  if len (tokenize self (strip sent)) <=? token_seq_length self
  then Ok [] else Raise IndexError.
Proof.
  unfold prev_chunk_based_on_token_seq_len, TokenSeqLen.run.
  cbn [for_each]. rewrite token_body_init, Z.gtb_ltb, Z.leb_antisym.
  now destruct (_ <? _).
Qed.

Lemma map_each_small (self : Chunker) (slices : list (list string)) :
  Forall (fun sl => (List.length sl <= 1)%nat) slices ->
  map_each (prev_chunk_based_on_token_seq_len self) slices =
  if forallb (fun sent => len (tokenize self (strip sent))
                          <=? token_seq_length self) (List.concat slices)
  then Ok (map (fun _ => []) slices) else Raise IndexError.
Proof.
  induction 1 as [|sl slices Hsl _ IH]; [reflexivity|].
  cbn [map_each List.concat map]. rewrite IH.
  destruct sl as [|sent [|? ?]]; [| |simpl in Hsl; lia].
  - cbn [app]. change (prev_chunk_based_on_token_seq_len self []) with (@Ok (list string) []).
    cbn [bind]. now destruct (forallb _ _).
  - rewrite prev_chunk_single. cbn [app forallb].
    destruct (_ <=? _); cbn [bind andb]; [|reflexivity].
    now destruct (forallb _ _).
Qed.



(** ** The word-count strategy: the cut it makes *)

(** X4: the chunks of the word-count strategy are consecutive, disjoint
    runs of input sentences, each joined by single spaces and stripped.
    Every run goes over [seq_length] words with its last sentence and not
    before; the sentences after the last run are exactly those in
    [temp_sent] when the loop ends, and they stay within [seq_length]
    words.  There are at most as many chunks as sentences. *)
Theorem seq_len_chunks_are_joined_runs (seq_len : Z) (sent_list : list string) :
  exists segs rest,
    sent_list = List.concat segs ++ rest
    /\ chunk_based_on_seq_len seq_len sent_list =
       map (fun seg => strip (join " " seg)) segs
    /\ Forall (fun seg =>
                 exists init last,
                   seg = init ++ [last]
                   /\ (init <> [] -> len (words init) <= seq_len)
                   /\ seq_len < len (words seg)) segs
    /\ SeqLen.temp_sent (SeqLen.run seq_len sent_list SeqLen.init) =
       accumulate "" rest
    /\ (rest <> [] -> len (words rest) <= seq_len)
    /\ len (chunk_based_on_seq_len seq_len sent_list) <= len sent_list.
Proof.
  destruct (seq_len_segments_over seq_len sent_list)
    as (segs & rest & Hl & Hrun & Hsegs & Hrest).
  exists segs, rest.
  assert (Hc : chunk_based_on_seq_len seq_len sent_list = map chunk_of segs).
  { unfold chunk_based_on_seq_len. now rewrite Hrun. }
  split; [exact Hl|]. split; [rewrite Hc; apply map_ext, chunk_of_join|].
  split; [exact Hsegs|]. split; [now rewrite Hrun|]. split; [exact Hrest|].
  rewrite Hc, Hl. unfold len. rewrite length_map, length_app.
  assert (List.length segs <= List.length (List.concat segs))%nat; [|lia].
  clear -Hsegs. induction Hsegs as [|seg segs (init & last & -> & _) _ IH];
    simpl; [lia|].
  rewrite !length_app. simpl. lia.
Qed.

(** ** Strings without NUL characters *)

Lemma np_str_nul_free (s : string) : nul_free s = true -> np_str s = s.
Proof.
  induction s as [|c s IH]; simpl; [reflexivity|].
  destruct (Ascii.eqb c NUL); simpl; [discriminate|].
  intros H. now rewrite IH.
Qed.

Lemma as_str_array_nul_free (l : list string) :
  Forall (fun s => nul_free s = true) l -> as_str_array l = l.
Proof.
  induction 1 as [|s l Hs _ IH]; simpl; [reflexivity|].
  now rewrite np_str_nul_free, IH.
Qed.

Lemma as_str_array_len (l : list string) : len (as_str_array l) = len l.
Proof. unfold len, as_str_array. now rewrite length_map. Qed.

Lemma nul_free_app (a b : string) :
  nul_free (a ++ b) = nul_free a && nul_free b.
Proof.
  induction a as [|c a IH]; simpl; [reflexivity|].
  now rewrite IH, andb_assoc.
Qed.

Lemma nul_free_lstrip (s : string) : nul_free s = true -> nul_free (lstrip s) = true.
Proof.
  induction s as [|c s IH]; simpl; [reflexivity|].
  intros H. destruct (isspace c); [|exact H].
  apply andb_true_iff in H as [_ H]. auto.
Qed.

Lemma nul_free_rstrip (s : string) : nul_free s = true -> nul_free (rstrip s) = true.
Proof.
  induction s as [|c s IH]; simpl; [reflexivity|].
  intros H. apply andb_true_iff in H as [Hc H].
  destruct (isspace c && is_empty (rstrip s)); [reflexivity|].
  simpl. now rewrite Hc, IH.
Qed.

Lemma nul_free_accumulate (temp : string) (sents : list string) :
  nul_free temp = true ->
  Forall (fun s => nul_free s = true) sents ->
  nul_free (accumulate temp sents) = true.
Proof.
  intros Ht Hs. revert temp Ht.
  induction Hs as [|sent sents Hsent _ IH]; intros temp Ht; [exact Ht|].
  apply IH. rewrite !nul_free_app, Ht, Hsent. reflexivity.
Qed.

Lemma nul_free_chunk_of (seg : list string) :
  Forall (fun s => nul_free s = true) seg -> nul_free (chunk_of seg) = true.
Proof.
  intros H. unfold chunk_of, strip.
  now apply nul_free_rstrip, nul_free_lstrip, nul_free_accumulate.
Qed.

Lemma prev_chunks_nul_free (self : Chunker) (sent_list chunks : list string) :
  Forall (fun s => nul_free s = true) sent_list ->
  prev_chunk_based_on_token_seq_len self sent_list = Ok chunks ->
  Forall (fun s => nul_free s = true) chunks.
Proof.
  intros Hnul Hok. unfold prev_chunk_based_on_token_seq_len in Hok.
  destruct (TokenSeqLen.run self sent_list TokenSeqLen.init) as [st|] eqn:Hrun;
    cbn [bind] in Hok; [|discriminate].
  injection Hok as <-.
  destruct (token_run_invariant self sent_list st Hrun) as (_ & _ & Hchunks & _).
  eapply Forall_impl; [|exact Hchunks].
  intros c (pre & seg & post & Hl & _ & ->).
  apply nul_free_chunk_of.
  rewrite Hl in Hnul. apply Forall_app in Hnul as [_ Hnul].
  now apply Forall_app in Hnul as [Hnul _].
Qed.

Lemma map_each_inv {X Y : Type} (f : X -> result Y) (xs : list X) (ys : list Y) :
  map_each f xs = Ok ys -> Forall2 (fun x y => f x = Ok y) xs ys.
Proof.
  revert ys.
  induction xs as [|x xs IH]; intros ys; simpl.
  - intros [= <-]. constructor.
  - destruct (f x) as [y|] eqn:Hx; simpl; [|discriminate].
    destruct (map_each f xs) as [ys'|]; simpl; [|discriminate].
    intros [= <-]. constructor; auto.
Qed.

Lemma np_concatenate_nul_free (chunk_lists : list (list string)) :
  chunk_lists <> [] ->
  Forall (Forall (fun s => nul_free s = true)) chunk_lists ->
  np_concatenate chunk_lists = Ok (List.concat chunk_lists).
Proof.
  intros Hne Hnul. destruct chunk_lists as [|c cls]; [contradiction|].
  unfold np_concatenate. f_equal.
  apply as_str_array_nul_free. now apply Forall_concat.
Qed.

(** ** The parallel strategy over numpy string arrays *)

Lemma parallel_on_slices (self : Chunker) (sent_list : list string)
      (slices : list (list string)) :
  array_split sent_list (cpu_count self) = Ok slices ->
  slices <> [] ->
  Forall (Forall (fun s => nul_free s = true)) slices ->
  parallel_chunker_prev_chunk_based_on_token_seq_len self sent_list =
  sequential_on_slices self slices.
Proof.
  intros Hsplit Hne Hnul.
  unfold parallel_chunker_prev_chunk_based_on_token_seq_len, sequential_on_slices.
  rewrite Hsplit. cbn [bind].
  destruct (map_each _ slices) as [cls|e] eqn:Hcls; cbn [bind]; [|reflexivity].
  apply map_each_inv in Hcls.
  apply np_concatenate_nul_free.
  - apply Forall2_length in Hcls. intros ->. now destruct slices.
  - clear Hsplit Hne. induction Hcls as [|sl c slices cls Hc _ IH]; [constructor|].
    constructor.
    + eapply prev_chunks_nul_free; [|exact Hc]. now apply Forall_inv in Hnul.
    + apply IH. now apply Forall_inv_tail in Hnul.
Qed.

(** C4, as amended: for sentences without NUL characters and at least one
    worker, the parallel strategy returns the chunk lists of the sequential
    strategy on the slices of [np.array_split], concatenated in slice order,
    and raises [IndexError] when a slice makes the sequential strategy
    raise.  The slices are [cpu_count] consecutive runs of the input, the
    first [len mod cpu_count] of them one sentence longer than the others. *)
Theorem parallel_is_concat_over_array_split (self : Chunker)
        (sent_list : list string)
        (Hcpu : 0 < cpu_count self)
        (Hnul : Forall (fun s => nul_free s = true) sent_list) :
  exists slices,
    array_split sent_list (cpu_count self) = Ok slices
    /\ slices =
       chop (repeat (Z.to_nat (len sent_list / cpu_count self + 1))
                    (Z.to_nat (len sent_list mod cpu_count self))
             ++ repeat (Z.to_nat (len sent_list / cpu_count self))
                       (Z.to_nat (cpu_count self
                                  - len sent_list mod cpu_count self)))
            sent_list
    /\ near_equal_partition (cpu_count self) sent_list slices
    /\ parallel_chunker_prev_chunk_based_on_token_seq_len self sent_list =
       sequential_on_slices self slices
    /\ (forall chunk_lists,
           Forall2 (fun sl chunks =>
                      prev_chunk_based_on_token_seq_len self sl = Ok chunks)
                   slices chunk_lists ->
           parallel_chunker_prev_chunk_based_on_token_seq_len self sent_list =
           Ok (List.concat chunk_lists))
    /\ (forall sl e,
           In sl slices ->
           prev_chunk_based_on_token_seq_len self sl = Raise e ->
           parallel_chunker_prev_chunk_based_on_token_seq_len self sent_list =
           Raise IndexError).
Proof.
  destruct (split_sections_partition sent_list (cpu_count self) Hcpu)
    as (slices & Hsplit & Hn & Hcat & Hsz).
  assert (Hsplit' : array_split sent_list (cpu_count self) = Ok slices).
  { unfold array_split. now rewrite (as_str_array_nul_free sent_list Hnul). }
  assert (Hne : slices <> []).
  { intros ->. unfold len in Hn. simpl in Hn. lia. }
  assert (Hslices : Forall (Forall (fun s => nul_free s = true)) slices).
  { apply Forall_concat. now rewrite Hcat. }
  pose proof (parallel_on_slices self sent_list slices Hsplit' Hne Hslices) as Hpar.
  exists slices. split; [exact Hsplit'|]. split.
  { rewrite (split_sections_chop sent_list (cpu_count self) Hcpu) in Hsplit.
    now injection Hsplit as <-. }
  split.
  { split; [exact Hn|]. split; [exact Hcat|].
    intros sl sl' Hin Hin'. rewrite Forall_forall in Hsz.
    pose proof (Hsz sl Hin). pose proof (Hsz sl' Hin'). lia. }
  split; [exact Hpar|]. rewrite Hpar. unfold sequential_on_slices. split.
  - intros chunk_lists Hall. now rewrite (map_each_ok _ _ _ Hall).
  - intros sl e Hin Hsl.
    destruct (map_each_raise _ _ _ _ Hin Hsl) as [e' He'].
    rewrite He'. cbn [bind]. f_equal.
    eapply map_each_raises; [|exact He'].
    intros x e0. apply prev_chunk_raises_index.
Qed.

(** Ten sentences on three workers: slices of four, three and three. *)
Lemma parallel_over_array_split_three_workers :
  exists slices,
    array_split ["a"; "b"; "c d"; "e"; "f"; "g"; "h"; "i"; "j"; "k"] 3
    = Ok slices
    /\ slices = [["a"; "b"; "c d"; "e"]; ["f"; "g"; "h"]; ["i"; "j"; "k"]]
    /\ parallel_chunker_prev_chunk_based_on_token_seq_len
         (word_chunker 2 true 3)
         ["a"; "b"; "c d"; "e"; "f"; "g"; "h"; "i"; "j"; "k"] =
       Ok (["a b"] ++ ["f g"] ++ ["i j"]).
Proof.
  destruct (parallel_is_concat_over_array_split (word_chunker 2 true 3)
              ["a"; "b"; "c d"; "e"; "f"; "g"; "h"; "i"; "j"; "k"] eq_refl)
    as (slices & Hsplit & Hs & _ & _ & Hok & _).
  - repeat constructor.
  - exists slices. split; [exact Hsplit|]. split; [exact Hs|].
    rewrite Hs in Hok.
    apply (Hok [["a b"]; ["f g"]; ["i j"]]).
    repeat constructor.
Defined.

(** C4, as the claim words it, fails twice.  Cut into three, three and
    four, the ten sentences give other chunks than the parallel strategy
    returns; and a sentence that ends with a NUL character reaches the
    worker, and leaves it, without the NUL. *)
Lemma parallel_differs_on_other_partition :
  (near_equal_partition 3
     ["a"; "b"; "c d"; "e"; "f"; "g"; "h"; "i"; "j"; "k"]
     [["a"; "b"; "c d"]; ["e"; "f"; "g"]; ["h"; "i"; "j"; "k"]]
   /\ sequential_on_slices (word_chunker 2 true 3)
        [["a"; "b"; "c d"]; ["e"; "f"; "g"]; ["h"; "i"; "j"; "k"]]
      = Ok ["a b"; "e f"; "h i"]
   /\ parallel_chunker_prev_chunk_based_on_token_seq_len (word_chunker 2 true 3)
        ["a"; "b"; "c d"; "e"; "f"; "g"; "h"; "i"; "j"; "k"]
      = Ok ["a b"; "f g"; "i j"]
   /\ (parallel_chunker_prev_chunk_based_on_token_seq_len
         (word_chunker 2 true 3)
         ["a"; "b"; "c d"; "e"; "f"; "g"; "h"; "i"; "j"; "k"]
       = sequential_on_slices (word_chunker 2 true 3)
           [["a"; "b"; "c d"]; ["e"; "f"; "g"]; ["h"; "i"; "j"; "k"]]
       -> False))
  /\
  (near_equal_partition 1
     [String "a" (String NUL ""); "b"; "c"]
     [[String "a" (String NUL ""); "b"; "c"]]
   /\ sequential_on_slices (word_chunker 1 true 1)
        [[String "a" (String NUL ""); "b"; "c"]]
      = Ok [String "a" (String NUL "")]
   /\ parallel_chunker_prev_chunk_based_on_token_seq_len (word_chunker 1 true 1)
        [String "a" (String NUL ""); "b"; "c"]
      = Ok ["a"]
   /\ (parallel_chunker_prev_chunk_based_on_token_seq_len
         (word_chunker 1 true 1) [String "a" (String NUL ""); "b"; "c"]
       = sequential_on_slices (word_chunker 1 true 1)
           [[String "a" (String NUL ""); "b"; "c"]]
       -> False)).
Proof.
  split; (split; [|split; [reflexivity | split; [reflexivity | discriminate]]]).
  - split; [reflexivity|]. split; [reflexivity|].
    intros sl sl' Hin Hin'. simpl in Hin, Hin'.
    repeat (destruct Hin as [<-|Hin]); try contradiction;
      repeat (destruct Hin' as [<-|Hin']); try contradiction;
      vm_compute; discriminate.
  - split; [reflexivity|]. split; [reflexivity|].
    intros sl sl' Hin Hin'. simpl in Hin, Hin'.
    repeat (destruct Hin as [<-|Hin]); try contradiction;
      repeat (destruct Hin' as [<-|Hin']); try contradiction;
      vm_compute; discriminate.
Qed.

(** X10: with a single worker the parallel strategy is the sequential
    strategy run on the sentences as a string array gives them back,
    without their trailing NUL characters, and the chunks come back without
    theirs; for sentences without NUL characters it is the sequential
    strategy itself: same chunks, same exception. *)
Theorem parallel_one_worker (self : Chunker) (sent_list : list string)
        (Hone : cpu_count self = 1) :
  parallel_chunker_prev_chunk_based_on_token_seq_len self sent_list =
  (chunks <- prev_chunk_based_on_token_seq_len self (as_str_array sent_list) ;;
   Ok (as_str_array chunks))
  /\ (Forall (fun s => nul_free s = true) sent_list ->
      parallel_chunker_prev_chunk_based_on_token_seq_len self sent_list =
      prev_chunk_based_on_token_seq_len self sent_list).
Proof.
  assert (Hpar : parallel_chunker_prev_chunk_based_on_token_seq_len self sent_list =
                 (chunks <- prev_chunk_based_on_token_seq_len self
                              (as_str_array sent_list) ;;
                  Ok (as_str_array chunks))).
  { unfold parallel_chunker_prev_chunk_based_on_token_seq_len, array_split.
    rewrite Hone, split_sections_one. cbn [bind map_each].
    destruct (prev_chunk_based_on_token_seq_len self (as_str_array sent_list))
      as [chunks|e]; cbn [bind np_concatenate List.concat]; [|reflexivity].
    now rewrite app_nil_r. }
  split; [exact Hpar|].
  intros Hnul. rewrite Hpar, (as_str_array_nul_free sent_list Hnul).
  destruct (prev_chunk_based_on_token_seq_len self sent_list) as [chunks|e] eqn:Hc;
    cbn [bind]; [|reflexivity].
  f_equal. apply as_str_array_nul_free.
  exact (prev_chunks_nul_free self sent_list chunks Hnul Hc).
Qed.

(** One worker, and a first sentence that ends with a NUL character. *)
Lemma parallel_one_worker_example :
  parallel_chunker_prev_chunk_based_on_token_seq_len (word_chunker 1 true 1)
    [String "a" (String NUL ""); "b"; "c"] = Ok ["a"]
  /\ parallel_chunker_prev_chunk_based_on_token_seq_len (word_chunker 2 true 1)
       ["a"; "b"; "c d"; "e"; "f"] =
     prev_chunk_based_on_token_seq_len (word_chunker 2 true 1)
       ["a"; "b"; "c d"; "e"; "f"].
Proof.
  split.
  - rewrite (proj1 (parallel_one_worker (word_chunker 1 true 1)
                      [String "a" (String NUL ""); "b"; "c"] eq_refl)).
    reflexivity.
  - apply (parallel_one_worker (word_chunker 2 true 1)
             ["a"; "b"; "c d"; "e"; "f"] eq_refl).
    repeat constructor.
Defined.

(** X11: the parallel strategy raises [IndexError] as soon as one slice of
    [np.array_split] starts with a sentence that has, on its own, more
    tokens than [token_seq_length], wherever that slice is. *)
Theorem parallel_slice_overflow (self : Chunker) (sent_list : list string)
        (slices : list (list string)) (sent : string) (sl : list string)
        (Hsplit : array_split sent_list (cpu_count self) = Ok slices)
        (Hin : In (sent :: sl) slices)
        (Hover : token_seq_length self < len (tokenize self (strip sent))) :
  parallel_chunker_prev_chunk_based_on_token_seq_len self sent_list =
  Raise IndexError.
Proof.
  unfold parallel_chunker_prev_chunk_based_on_token_seq_len.
  rewrite Hsplit. cbn [bind].
  destruct (map_each_raise _ _ _ _ Hin
              (prev_chunk_first_overflow self sent sl Hover)) as [e He].
  rewrite He. cbn [bind]. f_equal.
  eapply map_each_raises; [|exact He].
  intros x e'. apply prev_chunk_raises_index.
Qed.

(** The sequential strategy returns on these sentences; on two workers the
    second slice starts with [c d] and the parallel strategy raises. *)
Lemma parallel_slice_overflow_example :
  prev_chunk_based_on_token_seq_len (word_chunker 1 true 2)
    ["a"; "b"; "c d"; "e"] = Ok ["a"; "a b"]
  /\ array_split ["a"; "b"; "c d"; "e"] 2 = Ok [["a"; "b"]; ["c d"; "e"]]
  /\ parallel_chunker_prev_chunk_based_on_token_seq_len (word_chunker 1 true 2)
       ["a"; "b"; "c d"; "e"] = Raise IndexError.
Proof.
  split; [reflexivity|]. split; [reflexivity|].
  apply (parallel_slice_overflow (word_chunker 1 true 2)
           ["a"; "b"; "c d"; "e"] [["a"; "b"]; ["c d"; "e"]] "c d" ["e"]).
  - reflexivity.
  - simpl. tauto.
  - vm_compute. reflexivity.
Defined.

(** X12: for any number of workers, the parallel strategy raises
    [IndexError] when the first sentence of the input, as the string array
    gives it back (without its trailing NUL characters), has on its own more
    tokens than [token_seq_length]. *)
Theorem parallel_first_sentence_overflow (self : Chunker) (sent : string)
        (rest : list string)
        (Hcpu : 0 < cpu_count self)
        (Hover : token_seq_length self
                 < len (tokenize self (strip (np_str sent)))) :
  parallel_chunker_prev_chunk_based_on_token_seq_len self (sent :: rest) =
  Raise IndexError.
Proof.
  destruct (split_sections_first (np_str sent) (as_str_array rest)
              (cpu_count self) Hcpu) as (sl & others & Hsplit).
  unfold parallel_chunker_prev_chunk_based_on_token_seq_len, array_split.
  cbn [as_str_array map]. fold (as_str_array rest).
  rewrite Hsplit. cbn [bind map_each].
  now rewrite (prev_chunk_first_overflow self (np_str sent) sl Hover).
Qed.

Lemma parallel_first_sentence_overflow_example :
  parallel_chunker_prev_chunk_based_on_token_seq_len (word_chunker 1 true 3)
    ["c d"; "e"; "f"; "g"] = Raise IndexError.
Proof.
  apply (parallel_first_sentence_overflow (word_chunker 1 true 3) "c d"
           ["e"; "f"; "g"]); reflexivity.
Defined.



(** X23: with at least as many workers as sentences, every worker gets one
    sentence at most, and the parallel strategy returns no chunk at all: the
    empty list when no sentence, as the string array gives it back, has on
    its own more tokens than [token_seq_length], and [IndexError]
    otherwise. *)
Theorem parallel_more_workers_than_sentences (self : Chunker)
        (sent_list : list string)
        (Hcpu : 0 < cpu_count self)
        (Hsmall : len sent_list <= cpu_count self) :
  parallel_chunker_prev_chunk_based_on_token_seq_len self sent_list =
  if forallb (fun sent => len (tokenize self (strip sent))
                          <=? token_seq_length self) (as_str_array sent_list)
  then Ok [] else Raise IndexError.
Proof.
  rewrite <- as_str_array_len in Hsmall.
  destruct (split_sections_small (as_str_array sent_list) (cpu_count self)
              Hcpu Hsmall) as (slices & Hsplit & Hcat & Hne & Hone).
  unfold parallel_chunker_prev_chunk_based_on_token_seq_len, array_split.
  rewrite Hsplit. cbn [bind]. rewrite (map_each_small self slices Hone), Hcat.
  destruct (forallb _ (as_str_array sent_list)); cbn [bind]; [|reflexivity].
  destruct slices as [|sl slices]; [contradiction|].
  cbn [map np_concatenate]. f_equal.
  replace (List.concat ([] :: map (fun _ : list string => []) slices))
    with (@nil string); [reflexivity|].
  clear. cbn [List.concat app]. induction slices; simpl; auto.
Qed.

(** Twelve workers for ten sentences; one worker for a sentence whose
    second token is a NUL character that the string array drops. *)
Lemma parallel_more_workers_than_sentences_example :
  parallel_chunker_prev_chunk_based_on_token_seq_len (word_chunker 1 true 12)
    ["a"; "b"; "c"; "d"; "e"; "f"; "g"; "h"; "i"; "j"] = Ok []
  /\ parallel_chunker_prev_chunk_based_on_token_seq_len (word_chunker 1 true 1)
       [String "a" (String " " (String NUL ""))] = Ok [].
Proof.
  split.
  - exact (parallel_more_workers_than_sentences (word_chunker 1 true 12)
             ["a"; "b"; "c"; "d"; "e"; "f"; "g"; "h"; "i"; "j"]
             eq_refl ltac:(vm_compute; discriminate)).
  - exact (parallel_more_workers_than_sentences (word_chunker 1 true 1)
             [String "a" (String " " (String NUL ""))]
             eq_refl ltac:(vm_compute; discriminate)).
Defined.
